(** * Versal PSM firmware I/O-module glue and PLM generic services

    A shallow embedding of
    - [lib/sw_apps/versal_psmfw/src/xpsmfw_iomodule.c]: the top-level
      interrupt table, its dispatcher, the IPI handler, the exception
      path and the STL handler override / restore entry points;
    - the procedure catalog, keyhole transfer and readback tracker
      declared by [lib/sw_services/xilplmi/src/xplmi_generic.h].

    C code that threads the machine state is written in a small state
    monad over a [World]; every register access, print request and
    external call is appended to an event trace. *)

From Stdlib Require Import ZArith NArith List String Lia Bool.
From stdpp Require Import base list gmap.
Import ListNotations.

(** ** Part I: xpsmfw_iomodule.c *)

Module IoModule.

Local Open Scope string_scope.
Local Open Scope Z_scope.

(** [u32] / [u16] / [u8] values are integers reduced modulo the width. *)
Definition u32 (z : Z) : Z := z mod 2 ^ 32.
Definition u16 (z : Z) : Z := z mod 2 ^ 16.
Definition u8 (z : Z) : Z := z mod 2 ^ 8.

(** XPsmFw_Printf debug classes used by this file. *)
Inductive debug_type := DEBUG_ERROR | DEBUG_DETAILED.

(** Second-level dispatchers living in other translation units. *)
Inductive extern_fn :=
| XPsmFw_DispatchIpiHandler
| XPsmFw_DispatchPwrUpHandler
| XPsmFw_DispatchPwrDwnHandler
| XPsmFw_DispatchWakeupHandler
| XPsmFw_DispatchPwrCtlHandler
| XPsmFw_DispatchGicP2Handler.

(** The parameterless function pointers stored in the top-level table. *)
Inductive irq_fn :=
| XPsmFw_InterruptIpiHandler_p
| XPsmfw_InterruptPwrUpHandler_p
| XPsmfw_InterruptPwrDwnHandler_p
| XPsmfw_InterruptWakeupHandler_p
| XPsmfw_InterruptPwrCtlHandler_p
| XPsmfw_InterruptGicP2Handler_p.

(** [XInterruptHandler] values handed to the IO-module driver: the
    default dispatcher of this file or some handler owned by a caller
    (the STL library), identified by its address. *)
Inductive intr_fn :=
| XPsmFw_IntrHandler_p
| Stl_p (addr : Z).

(** [Xil_ExceptionHandler] values put in the processor vector table. *)
Inductive exc_fn :=
| XPsmfw_ExceptionHandler_p
| XIOModule_DeviceInterruptHandler_p.

#[global] Instance irq_fn_eq_dec : EqDecision irq_fn.
Proof. solve_decision. Defined.
#[global] Instance intr_fn_eq_dec : EqDecision intr_fn.
Proof. solve_decision. Defined.
#[global] Instance exc_fn_eq_dec : EqDecision exc_fn.
Proof. solve_decision. Defined.

(** Variadic arguments of a print request. *)
Inductive printf_arg :=
| ArgX (z : Z)
| ArgS (s : string).

(** Observable actions.  [EvHandler h body] is one call through a
    table entry's [Handler] pointer: [body] holds what the callee did
    between entry and return. *)
#[warnings="-register-all"]
Inductive event :=
| EvRead32 (Addr Val : Z)
| EvWrite32 (Addr Val : Z)
| EvPrintf (DebugType : debug_type) (Fmt : string) (Args : list printf_arg)
| EvExtern (f : extern_fn) (Args : list Z) (Ret : Z)
| EvHandler (h : irq_fn) (body : list event).

(** Everything this translation unit takes from headers, the BSP and
    the IO-module driver: register addresses and masks, status codes,
    build switches, the raw bus, the second-level dispatchers and the
    driver entry points. *)
Class Platform := {
  HW : Type;
  mmio_read : Z -> HW -> Z * HW;
  mmio_write : Z -> Z -> HW -> HW;
  extern_call : extern_fn -> list Z -> HW -> Z * HW;
  (* xstatus.h *)
  XST_SUCCESS : Z;
  XST_FAILURE : Z;
  XST_INVALID_PARAM : Z;
  (* register map *)
  IPI_PSM_ISR : Z;
  IPI_PSM_ISR_PMC_MASK : Z;
  PSM_GLOBAL_REG_REQ_PWRUP_STATUS : Z;
  PSM_GLOBAL_REG_REQ_PWRUP_INT_MASK : Z;
  PSM_GLOBAL_REG_REQ_PWRDWN_STATUS : Z;
  PSM_GLOBAL_REG_REQ_PWRDWN_INT_MASK : Z;
  PSM_GLOBAL_REG_WAKEUP_IRQ_STATUS : Z;
  PSM_GLOBAL_REG_WAKEUP_IRQ_MASK : Z;
  PSM_GLOBAL_REG_PWR_CTRL_IRQ_STATUS : Z;
  PSM_GLOBAL_REG_PWR_CTRL_IRQ_MASK : Z;
  PSM_GLOBAL_GICP2_IRQ_STATUS : Z;
  PSM_GLOBAL_GICP2_IRQ_MASK : Z;
  PSM_GLOBAL_REG_ERR1_TRIG : Z;
  PSM_GLOBAL_REG_ERR1_TRIG_PSM_B_NCR_MASK : Z;
  PSM_IOMODULE_IRQ_PENDING : Z;
  PSM_IOMODULE_IRQ_ACK : Z;
  PSM_IOMODULE_IRQ_PENDING_IPI_SHIFT : Z;
  PSM_IOMODULE_IRQ_PENDING_IPI_MASK : Z;
  PSM_IOMODULE_IRQ_PENDING_PWR_UP_REQ_SHIFT : Z;
  PSM_IOMODULE_IRQ_PENDING_PWR_UP_REQ_MASK : Z;
  PSM_IOMODULE_IRQ_PENDING_PWR_DWN_REQ_SHIFT : Z;
  PSM_IOMODULE_IRQ_PENDING_PWR_DWN_REQ_MASK : Z;
  PSM_IOMODULE_IRQ_PENDING_WAKE_UP_REQ_SHIFT : Z;
  PSM_IOMODULE_IRQ_PENDING_WAKE_UP_REQ_MASK : Z;
  PSM_IOMODULE_IRQ_PENDING_PWR_CNT_REQ_SHIFT : Z;
  PSM_IOMODULE_IRQ_PENDING_PWR_CNT_REQ_MASK : Z;
  PSM_IOMODULE_IRQ_PENDING_SW_RST_REQ_SHIFT : Z;
  PSM_IOMODULE_IRQ_PENDING_SW_RST_REQ_MASK : Z;
  PSM_IOMODULE_IRQ_PENDING_GICP_INT_SHIFT : Z;
  PSM_IOMODULE_IRQ_PENDING_GICP_INT_MASK : Z;
  (* xil_exception.h *)
  XIL_EXCEPTION_ID_FIRST : Z;
  XIL_EXCEPTION_ID_LAST : Z;
  XIL_EXCEPTION_ID_INT : Z;
  (* xparameters.h *)
  XPAR_IOMODULE_INTC_MAX_INTR_SIZE : Z;
  XPAR_XIPIPSU_0_DEVICE_ID_defined : bool;
  (* xiomodule.h *)
  XIOModule : Type;
  XIOModule_Connect :
    Z -> option intr_fn -> Z -> XIOModule * HW -> Z * (XIOModule * HW);
  XIOModule_Enable : Z -> XIOModule * HW -> XIOModule * HW;
  XIOModule_Disable : Z -> XIOModule * HW -> XIOModule * HW;
  XIOModule_Start : XIOModule * HW -> Z * (XIOModule * HW);
  (* what the driver instance holds for an interrupt id: the connected
     handler and its callback reference *)
  XIOModule_binding : XIOModule -> Z -> option (intr_fn * Z);
  (* processor intrinsics *)
  Xil_ExceptionEnable_hw : HW -> HW;
  mfmsr_hw : HW -> Z;
  mtmsr_hw : Z -> HW -> HW;
}.

Section Firmware.

Context {P : Platform}.

(** The machine as this file sees it: the bus behind the register
    shim, the file-static [IOModule] driver instance, the processor's
    exception vector table and the trace of what has been done. *)
Record World := mkWorld {
  hw : HW;
  IOModule : XIOModule;
  ExcTable : gmap Z (exc_fn * Z);
  trace : list event;
}.

Definition emit (e : event) (w : World) : World :=
  mkWorld (hw w) (IOModule w) (ExcTable w) (trace w ++ [e]).

Definition set_hw (h : HW) (w : World) : World :=
  mkWorld h (IOModule w) (ExcTable w) (trace w).

Definition set_trace (t : list event) (w : World) : World :=
  mkWorld (hw w) (IOModule w) (ExcTable w) t.

(** *** State monad *)

Definition M (A : Type) : Type := World -> A * World.

Definition ret {A} (a : A) : M A := fun w => (a, w).

Definition bind {A B} (m : M A) (k : A -> M B) : M B :=
  fun w => let (a, w') := m w in k a w'.

Notation "x <- m ;; k" := (bind m (fun x => k))
  (at level 100, m at next level, right associativity).
Notation "m ;; k" := (bind m (fun _ => k))
  (at level 100, right associativity).

Definition exec {A} (m : M A) (w : World) : World := snd (m w).

(** *** Register shim, printing, external calls *)

Definition XPsmFw_Read32 (Addr : Z) : M Z := fun w =>
  let (raw, h) := mmio_read Addr (hw w) in
  let v := u32 raw in
  (v, emit (EvRead32 Addr v) (set_hw h w)).

Definition XPsmFw_Write32 (Addr Val : Z) : M unit := fun w =>
  (tt, emit (EvWrite32 Addr Val) (set_hw (mmio_write Addr Val (hw w)) w)).

Definition XPsmFw_Printf (t : debug_type) (Fmt : string)
  (Args : list printf_arg)
  : M unit := fun w => (tt, emit (EvPrintf t Fmt Args) w).

Definition extern (f : extern_fn) (Args : list Z) : M Z := fun w =>
  let (r, h) := extern_call f Args (hw w) in
  (r, emit (EvExtern f Args r) (set_hw h w)).

(** *** Second-level handlers *)

Definition XPsmFw_InterruptIpiHandler : M unit :=
  let Status := XST_FAILURE in
  Mask <- XPsmFw_Read32 IPI_PSM_ISR ;;
  (* If IPI is not from PMC print error and exit *)
  Status <-
    (if negb (IPI_PSM_ISR_PMC_MASK =? Z.land IPI_PSM_ISR_PMC_MASK Mask) then
       XPsmFw_Printf DEBUG_ERROR "Invalid IPI interrupt\r\n" [] ;;
       ret Status
     else if XPAR_XIPIPSU_0_DEVICE_ID_defined then
       extern XPsmFw_DispatchIpiHandler [IPI_PSM_ISR_PMC_MASK]
     else
       XPsmFw_Printf DEBUG_ERROR "PSM IPI channel is not enabled\r\n" [] ;;
       ret Status) ;;
  (* done: Clear PSM IPI ISR *)
  XPsmFw_Write32 IPI_PSM_ISR Mask ;;
  if negb (XST_SUCCESS =? Status) then
    XPsmFw_Printf DEBUG_ERROR "Error in handling IPI interrupt\r\n" []
  else ret tt.

Definition XPsmfw_InterruptPwrUpHandler : M unit :=
  PwrUpStatus <- XPsmFw_Read32 PSM_GLOBAL_REG_REQ_PWRUP_STATUS ;;
  PwrUpIntMask <- XPsmFw_Read32 PSM_GLOBAL_REG_REQ_PWRUP_INT_MASK ;;
  Status <- extern XPsmFw_DispatchPwrUpHandler [PwrUpStatus; PwrUpIntMask] ;;
  if negb (XST_SUCCESS =? Status) then
    XPsmFw_Printf DEBUG_ERROR "Error in handling Power up interrupt\r\n" []
  else ret tt.

Definition XPsmfw_InterruptPwrDwnHandler : M unit :=
  PwrDwnStatus <- XPsmFw_Read32 PSM_GLOBAL_REG_REQ_PWRDWN_STATUS ;;
  PwrDwnIntMask <- XPsmFw_Read32 PSM_GLOBAL_REG_REQ_PWRDWN_INT_MASK ;;
  PwrUpStatus <- XPsmFw_Read32 PSM_GLOBAL_REG_REQ_PWRUP_STATUS ;;
  PwrUpIntMask <- XPsmFw_Read32 PSM_GLOBAL_REG_REQ_PWRUP_INT_MASK ;;
  Status <- extern XPsmFw_DispatchPwrDwnHandler
              [PwrDwnStatus; PwrDwnIntMask; PwrUpStatus; PwrUpIntMask] ;;
  if negb (XST_SUCCESS =? Status) then
    XPsmFw_Printf DEBUG_ERROR "Error in handling Power down interrupt\r\n" []
  else ret tt.

Definition XPsmfw_InterruptWakeupHandler : M unit :=
  WakeupStatus <- XPsmFw_Read32 PSM_GLOBAL_REG_WAKEUP_IRQ_STATUS ;;
  WakeupIntMask <- XPsmFw_Read32 PSM_GLOBAL_REG_WAKEUP_IRQ_MASK ;;
  Status <- extern XPsmFw_DispatchWakeupHandler [WakeupStatus; WakeupIntMask] ;;
  if negb (XST_SUCCESS =? Status) then
    XPsmFw_Printf DEBUG_ERROR "Error in handling wakeup interrupt\r\n" []
  else ret tt.

Definition XPsmfw_InterruptPwrCtlHandler : M unit :=
  PwrCtlStatus <- XPsmFw_Read32 PSM_GLOBAL_REG_PWR_CTRL_IRQ_STATUS ;;
  PwrCtlIntMask <- XPsmFw_Read32 PSM_GLOBAL_REG_PWR_CTRL_IRQ_MASK ;;
  Status <- extern XPsmFw_DispatchPwrCtlHandler [PwrCtlStatus; PwrCtlIntMask] ;;
  if negb (XST_SUCCESS =? Status) then
    XPsmFw_Printf DEBUG_ERROR "Error in handling power control interrupt\r\n" []
  else ret tt.

Definition XPsmfw_InterruptGicP2Handler : M unit :=
  GicP2IrqStatus <- XPsmFw_Read32 PSM_GLOBAL_GICP2_IRQ_STATUS ;;
  GicP2IrqMask <- XPsmFw_Read32 PSM_GLOBAL_GICP2_IRQ_MASK ;;
  Status <- extern XPsmFw_DispatchGicP2Handler [GicP2IrqStatus; GicP2IrqMask] ;;
  if negb (XST_SUCCESS =? Status) then
    XPsmFw_Printf DEBUG_ERROR "Error in handling GIC interrupt\r\n" []
  else ret tt.

(** *** Top-level interrupt table *)

Record HandlerTable := mkHandlerTable {
  Shift : Z;
  Mask : Z;
  Handler : option irq_fn;
}.

Definition g_TopLevelInterruptTable : list HandlerTable := [
  mkHandlerTable PSM_IOMODULE_IRQ_PENDING_IPI_SHIFT
                 PSM_IOMODULE_IRQ_PENDING_IPI_MASK
                 (Some XPsmFw_InterruptIpiHandler_p);
  mkHandlerTable PSM_IOMODULE_IRQ_PENDING_PWR_UP_REQ_SHIFT
                 PSM_IOMODULE_IRQ_PENDING_PWR_UP_REQ_MASK
                 (Some XPsmfw_InterruptPwrUpHandler_p);
  mkHandlerTable PSM_IOMODULE_IRQ_PENDING_PWR_DWN_REQ_SHIFT
                 PSM_IOMODULE_IRQ_PENDING_PWR_DWN_REQ_MASK
                 (Some XPsmfw_InterruptPwrDwnHandler_p);
  mkHandlerTable PSM_IOMODULE_IRQ_PENDING_WAKE_UP_REQ_SHIFT
                 PSM_IOMODULE_IRQ_PENDING_WAKE_UP_REQ_MASK
                 (Some XPsmfw_InterruptWakeupHandler_p);
  mkHandlerTable PSM_IOMODULE_IRQ_PENDING_PWR_CNT_REQ_SHIFT
                 PSM_IOMODULE_IRQ_PENDING_PWR_CNT_REQ_MASK
                 (Some XPsmfw_InterruptPwrCtlHandler_p);
  mkHandlerTable PSM_IOMODULE_IRQ_PENDING_SW_RST_REQ_SHIFT
                 PSM_IOMODULE_IRQ_PENDING_SW_RST_REQ_MASK
                 None;
  mkHandlerTable PSM_IOMODULE_IRQ_PENDING_GICP_INT_SHIFT
                 PSM_IOMODULE_IRQ_PENDING_GICP_INT_MASK
                 (Some XPsmfw_InterruptGicP2Handler_p)
].

(** The code behind each pointer value of the table. *)
Definition irq_fn_code (h : irq_fn) : M unit :=
  match h with
  | XPsmFw_InterruptIpiHandler_p => XPsmFw_InterruptIpiHandler
  | XPsmfw_InterruptPwrUpHandler_p => XPsmfw_InterruptPwrUpHandler
  | XPsmfw_InterruptPwrDwnHandler_p => XPsmfw_InterruptPwrDwnHandler
  | XPsmfw_InterruptWakeupHandler_p => XPsmfw_InterruptWakeupHandler
  | XPsmfw_InterruptPwrCtlHandler_p => XPsmfw_InterruptPwrCtlHandler
  | XPsmfw_InterruptGicP2Handler_p => XPsmfw_InterruptGicP2Handler
  end.

(** [Handler()]: run the callee to its return; what it did is filed
    under one [EvHandler] event of the caller's trace. *)
Definition call_Handler (h : irq_fn) : M unit := fun w =>
  let w' := exec (irq_fn_code h) (set_trace [] w) in
  (tt, set_trace (trace w ++ [EvHandler h (trace w')]) w').

(** *** XPsmFw_IntrHandler *)

(** Body of the [for] loop for the entry at [l_index]. *)
Definition IntrHandler_body (l_IrqReg : Z) (e : HandlerTable) : M unit :=
  if Z.land l_IrqReg (Mask e) =? Mask e then
    (match Handler e with
     | Some h => (* Call interrupt handler *) call_Handler h
     | None => ret tt
     end) ;;
    (* ACK the interrupt *)
    XPsmFw_Write32 PSM_IOMODULE_IRQ_ACK (Mask e)
  else ret tt.

(** [for (l_index = 0; l_index < ARRAYSIZE(table); l_index++)] over the
    entries that remain from [l_index] on. *)
Fixpoint IntrHandler_loop (tbl : list HandlerTable) (l_IrqReg : Z)
  : M unit :=
  match tbl with
  | [] => ret tt
  | e :: rest =>
      IntrHandler_body l_IrqReg e ;; IntrHandler_loop rest l_IrqReg
  end.

Definition XPsmFw_IntrHandler (IntrNumber : Z) : M unit :=
  XPsmFw_Printf DEBUG_DETAILED "Interrupt number = 0x%x\r\n"
    [ArgX IntrNumber] ;;
  l_IrqReg <- XPsmFw_Read32 PSM_IOMODULE_IRQ_PENDING ;;
  IntrHandler_loop g_TopLevelInterruptTable l_IrqReg.

(** *** Exception path *)

(** A C function that may loop: run with a bound [fuel] on the number
    of loop tests, it has either returned or is still running. *)
Inductive outcome (A : Type) :=
| Returned (a : A) (w : World)
| Running (w : World).
Arguments Returned {A} a w.
Arguments Running {A} w.

(** xil_types.h *)
Definition TRUE : Z := 1.
Definition NULL : Z := 0.

(** [while (TRUE) { ; }] *)
Fixpoint while_TRUE (fuel : nat) (w : World) : outcome unit :=
  match fuel with
  | O => Running w
  | S fuel' => if negb (TRUE =? 0) then while_TRUE fuel' w else Returned tt w
  end.

Definition XPsmfw_ExceptionHandler (fuel : nat) (Data : Z) (w : World)
  : outcome unit :=
  (* Writing PSM Non-Correctable bit to ERR1_TRIG reg *)
  let w1 := exec (XPsmFw_Write32 PSM_GLOBAL_REG_ERR1_TRIG
                    PSM_GLOBAL_REG_ERR1_TRIG_PSM_B_NCR_MASK) w in
  (* Just in case if control reaches here *)
  while_TRUE fuel w1.

(** Modelled from the spec: [Xil_ExceptionRegisterHandler] belongs to
    the BSP; it makes [Handler] with [Data] the registered handler of
    exception [Id], replacing what was registered before. *)
Definition Xil_ExceptionRegisterHandler (Id : Z) (Handler : exc_fn)
  (Data : Z) : M unit := fun w =>
  (tt, mkWorld (hw w) (IOModule w)
         (<[Id := (Handler, Data)]> (ExcTable w)) (trace w)).

(** The [for] loop of XPsmfw_ExceptionInit; [Index] is a [u16]. *)
Fixpoint ExceptionInit_loop (fuel : nat) (Index : Z) (w : World)
  : outcome unit :=
  match fuel with
  | O => Running w
  | S fuel' =>
      if Index <=? XIL_EXCEPTION_ID_LAST then
        ExceptionInit_loop fuel' (u16 (Index + 1))
          (exec (Xil_ExceptionRegisterHandler Index
                   XPsmfw_ExceptionHandler_p NULL) w)
      else Returned tt w
  end.

Definition XPsmfw_ExceptionInit (fuel : nat) (w : World) : outcome unit :=
  (* Register exception handlers *)
  ExceptionInit_loop fuel (u16 XIL_EXCEPTION_ID_FIRST) w.

(** *** IO-module driver calls on the file-static instance *)

Definition IOModule_Connect (Id : Z) (h : option intr_fn) (CallBackRef : Z)
  : M Z := fun w =>
  let '(st, (io, h')) := XIOModule_Connect Id h CallBackRef (IOModule w, hw w) in
  (st, mkWorld h' io (ExcTable w) (trace w)).

Definition IOModule_Enable (Id : Z) : M unit := fun w =>
  let '(io, h') := XIOModule_Enable Id (IOModule w, hw w) in
  (tt, mkWorld h' io (ExcTable w) (trace w)).

Definition IOModule_Disable (Id : Z) : M unit := fun w =>
  let '(io, h') := XIOModule_Disable Id (IOModule w, hw w) in
  (tt, mkWorld h' io (ExcTable w) (trace w)).

Definition IOModule_Start : M Z := fun w =>
  let '(st, (io, h')) := XIOModule_Start (IOModule w, hw w) in
  (st, mkWorld h' io (ExcTable w) (trace w)).

Definition Xil_ExceptionEnable : M unit := fun w =>
  (tt, set_hw (Xil_ExceptionEnable_hw (hw w)) w).

Definition mfmsr : M Z := fun w => (mfmsr_hw (hw w), w).

Definition mtmsr (v : Z) : M unit := fun w =>
  (tt, set_hw (mtmsr_hw v (hw w)) w).

(** *** SetUpInterruptSystem *)

Definition XPSMFW_MB_MSR_BIP_MASK : Z := 0x8.

Fixpoint SetUp_loop (tbl : list HandlerTable) : M unit :=
  match tbl with
  | [] => ret tt
  | e :: rest =>
      let IntrNumber := Shift e in
      st <- IOModule_Connect (u8 IntrNumber) (Some XPsmFw_IntrHandler_p)
              IntrNumber ;;
      (if negb (XST_SUCCESS =? st) then
         XPsmFw_Printf DEBUG_ERROR
           "%s: Error! IO Module connect failed\r\n"
           [ArgS "SetUpInterruptSystem"]
       else ret tt) ;;
      IOModule_Enable (u8 IntrNumber) ;;
      SetUp_loop rest
  end.

Definition SetUpInterruptSystem (fuel : nat) (w : World) : outcome Z :=
  let w1 := exec
    (SetUp_loop g_TopLevelInterruptTable ;;
     st <- IOModule_Start ;;
     if negb (XST_SUCCESS =? st) then
       XPsmFw_Printf DEBUG_ERROR "%s: Error! IO Module start failed\r\n"
         [ArgS "SetUpInterruptSystem"]
     else ret tt) w in
  (* Initialize the exception table. *)
  match XPsmfw_ExceptionInit fuel w1 with
  | Running w2 => Running w2
  | Returned _ w2 =>
      let (r, w3) :=
        ((* Register the IO module interrupt handler with the exception
            table. *)
         Xil_ExceptionRegisterHandler XIL_EXCEPTION_ID_INT
           XIOModule_DeviceInterruptHandler_p NULL ;;
         (* Enable exceptions and interrupt *)
         Xil_ExceptionEnable ;;
         (* Clear Break in progress to get interrupts *)
         msr <- mfmsr ;;
         mtmsr (Z.land msr (u32 (Z.lnot XPSMFW_MB_MSR_BIP_MASK))) ;;
         ret XST_SUCCESS) w2 in
      Returned r w3
  end.

(** *** STL handler override and restore (PSM_ENABLE_STL) *)

Definition XPsmFw_RegisterStlInterruptHandler (InteruptNumber : Z)
  (StlInterruptHandler : option intr_fn) : M Z :=
  if bool_decide (StlInterruptHandler = None)
     || (XPAR_IOMODULE_INTC_MAX_INTR_SIZE <=? InteruptNumber) then
    ret XST_INVALID_PARAM
  else
    IOModule_Disable InteruptNumber ;;
    Status <- IOModule_Connect InteruptNumber StlInterruptHandler NULL ;;
    if negb (XST_SUCCESS =? Status) then ret Status
    else
      IOModule_Enable InteruptNumber ;;
      ret Status.

Definition XPsmFw_RestoreInterruptHandler (InteruptNumber : Z) : M Z :=
  if XPAR_IOMODULE_INTC_MAX_INTR_SIZE <=? InteruptNumber then
    ret XST_INVALID_PARAM
  else
    IOModule_Disable InteruptNumber ;;
    Status <- IOModule_Connect InteruptNumber (Some XPsmFw_IntrHandler_p)
                NULL ;;
    if negb (XST_SUCCESS =? Status) then ret Status
    else
      IOModule_Enable InteruptNumber ;;
      ret Status.

End Firmware.

Arguments Returned {P A} a w.
Arguments Running {P A} w.

End IoModule.

(** ** Part II: services declared by xplmi_generic.h

    The header fixes the data layout ([XPlmi_ProcData], [XPlmi_ProcList],
    [XPlmi_KeyHoleXfrParams], [XPlmi_ReadBackProps]) and the entry points;
    the bodies live in a translation unit that is not at hand, so the
    operations below follow the written contract of each component. *)

(** Error taxonomy of the contract. *)
Inductive error :=
| NotFound
| CapacityExceeded
| InvalidParameter
| Overflow
| ConcurrentOperation
| UnrecoverableFault.

Inductive result (A : Type) :=
| Ok (a : A)
| Err (e : error).
Arguments Ok {A} a.
Arguments Err {A} e.

Definition is_Ok {A} (r : result A) : bool :=
  match r with Ok _ => true | Err _ => false end.

(** *** Procedure catalog *)

Module Catalog.

Local Open Scope Z_scope.

(* Maximum procs supported *)
Definition XPLMI_MAX_PROCS_SUPPORTED : Z := 10.

Record XPlmi_ProcData := mkProcData {
  Id : Z;
  Addr : Z;
}.

(** Size in bytes of one [{u32 Id; u32 Addr}] pair. *)
Definition sizeof_ProcData : Z := 8.

(** The catalog: [ProcCount] and the first [ProcCount] slots of
    [ProcData] of [XPlmi_ProcList]. *)
Record XPlmi_ProcList := mkProcList {
  ProcCount : Z;
  ProcData : list XPlmi_ProcData;
}.

Definition empty_catalog : XPlmi_ProcList := mkProcList 0 [].

(** Word-addressed view of memory: the [u32] stored at a byte address. *)
Definition Mem := Z -> Z.

(** Modelled from the spec: the [{id, address}] pair number [i] of the
    region that starts at [regionAddress]. *)
Definition read_pair (m : Mem) (regionAddress : Z) (i : nat)
  : XPlmi_ProcData :=
  let base := regionAddress + sizeof_ProcData * Z.of_nat i in
  mkProcData (m base) (m (base + 4)).

(** Modelled from the spec: the entry count implied by [regionSize]. *)
Definition implied_count (regionSize : Z) : Z :=
  regionSize / sizeof_ProcData.

(** Modelled from the spec: the pairs held by a region. *)
Definition region_entries (m : Mem) (regionAddress regionSize : Z)
  : list XPlmi_ProcData :=
  map (read_pair m regionAddress)
      (seq 0 (Z.to_nat (implied_count regionSize))).

(** Modelled from the spec: [setCatalog] (XPlmi_SetProcList, body not at
    hand).  It parses the region into pairs and replaces the prior
    catalog; when the implied count exceeds the capacity it fails and
    installs nothing.  Pairs with equal ids are taken as they come: the
    contract leaves them open and the lookup settles on the first. *)
Definition setCatalog (m : Mem) (regionAddress regionSize : Z)
  (cat : XPlmi_ProcList) : result unit * XPlmi_ProcList :=
  let count := implied_count regionSize in
  if XPLMI_MAX_PROCS_SUPPORTED <? count then (Err CapacityExceeded, cat)
  else (Ok tt, mkProcList count (region_entries m regionAddress regionSize)).

(** Modelled from the spec: the lookup of [execute]; a scan in catalog
    order, first match wins. *)
Fixpoint lookup_proc (procId : Z) (entries : list XPlmi_ProcData)
  : option Z :=
  match entries with
  | [] => None
  | e :: rest => if Id e =? procId then Some (Addr e)
                 else lookup_proc procId rest
  end.

Section Runner.

(** The generic command interpreter, [run(startAddress) -> statusCode],
    acting on its own state [S]. *)
Variable St : Type.
Variable run : Z -> St -> Z * St.

(** Modelled from the spec: [execute] (XPlmi_ExecuteProc, body not at
    hand).  An absent id fails with [NotFound]; a present one hands
    control to the runner at the recorded address and yields its status
    code. *)
Definition execute (procId : Z) (cat : XPlmi_ProcList) (s : St)
  : result Z * St :=
  match lookup_proc procId (ProcData cat) with
  | None => (Err NotFound, s)
  | Some a => let (code, s') := run a s in (Ok code, s')
  end.

End Runner.

(** One bulk-load request and a history of them. *)
Record load := mkLoad {
  load_mem : Mem;
  load_address : Z;
  load_size : Z;
}.

Definition apply_load (cat : XPlmi_ProcList) (l : load) : XPlmi_ProcList :=
  snd (setCatalog (load_mem l) (load_address l) (load_size l) cat).

(** The catalog after a history of bulk loads, oldest first. *)
Definition after_loads (history : list load) : XPlmi_ProcList :=
  fold_left apply_load history empty_catalog.

(** Scenario memory: ten pairs with ids 0..9 at [0x1000 + 0x40 * id],
    laid out from byte address [0x8000]. *)
Definition scenario_mem : Mem := fun a =>
  let off := a - 0x8000 in
  if (0 <=? off) && (off <? 80) then
    if off mod 8 =? 0 then off / 8
    else if off mod 8 =? 4 then 0x1000 + 0x40 * (off / 8)
    else 0
  else 0.

Definition scenario_load : load := mkLoad scenario_mem 0x8000 80.

End Catalog.

(** *** Keyhole transfer engine *)

Module Keyhole.

Local Open Scope N_scope.

Section Engine.

(** Lengths and addresses are natural numbers: the contract states its
    arithmetic on the lengths themselves, without a word size. *)

(** The address spaces the move function acts on. *)
Variable Space : Type.

(** Modelled from the spec: [KeyholeTransferState]; the addresses are
    the current cursors, [fixedDestination] is the per-transfer flag of
    a keyhole aperture whose destination never advances. *)
Record KeyholeTransferState := mkXfr {
  sourceAddress : N;
  destinationAddress : N;
  totalLength : N;
  windowSize : N;
  bytesTransferred : N;
  fixedDestination : bool;
  transferFunction : N -> N -> N -> Space -> Space;
}.

(** Modelled from the spec: [beginTransfer]; [alignOk] is the caller's
    alignment constraint on the window size. *)
Definition beginTransfer (source destination totalLength windowSize : N)
  (moveFn : N -> N -> N -> Space -> Space)
  (fixedDest : bool) (alignOk : N -> bool)
  : result KeyholeTransferState :=
  if (0 <? windowSize) && (0 <? totalLength) && alignOk windowSize then
    Ok (mkXfr source destination totalLength windowSize 0 fixedDest moveFn)
  else Err InvalidParameter.

(** What one [step()] reports. *)
Record StepReport := mkReport {
  chunkLength : N;
  cumulative : N;
  complete : bool;
}.

(** Modelled from the spec: [step()]. *)
Definition step (x : KeyholeTransferState) (sp : Space)
  : StepReport * KeyholeTransferState * Space :=
  let chunk := N.min (windowSize x) (totalLength x - bytesTransferred x) in
  let sp' := transferFunction x (sourceAddress x) (destinationAddress x)
               chunk sp in
  let moved := bytesTransferred x + chunk in
  let x' := mkXfr (sourceAddress x + chunk)
                  (if fixedDestination x then destinationAddress x
                   else destinationAddress x + chunk)
                  (totalLength x) (windowSize x) moved
                  (fixedDestination x) (transferFunction x) in
  (mkReport chunk moved (moved =? totalLength x), x', sp').

(** The successive [step()] calls of one transfer: the main loop steps
    until a step reports completion; [fuel] bounds the number of calls. *)
Fixpoint run_transfer (fuel : nat) (x : KeyholeTransferState) (sp : Space)
  : list StepReport * KeyholeTransferState * Space :=
  match fuel with
  | O => ([], x, sp)
  | S fuel' =>
      let '(r, x', sp') := step x sp in
      if complete r then ([r], x', sp')
      else let '(rs, x'', sp'') := run_transfer fuel' x' sp' in
           (r :: rs, x'', sp'')
  end.

(** The state after [n] calls of [step()], whatever they reported. *)
Fixpoint step_n (n : nat) (x : KeyholeTransferState) (sp : Space)
  : KeyholeTransferState * Space :=
  match n with
  | O => (x, sp)
  | S n' => let '(_, x', sp') := step x sp in step_n n' x' sp'
  end.

End Engine.

Arguments sourceAddress {Space} _.
Arguments destinationAddress {Space} _.
Arguments totalLength {Space} _.
Arguments windowSize {Space} _.
Arguments bytesTransferred {Space} _.
Arguments fixedDestination {Space} _.
Arguments transferFunction {Space} _.
Arguments step {Space} x sp.
Arguments run_transfer {Space} fuel x sp.
Arguments step_n {Space} n x sp.

Definition sum_chunks (rs : list StepReport) : N :=
  fold_right (fun r acc => chunkLength r + acc) 0 rs.

(** A move function for trials: it logs the requested moves. *)
Definition log_move (src dst len : N) (log : list (N * N * N))
  : list (N * N * N) := log ++ [(src, dst, len)].

End Keyhole.

(** *** Readback progress tracker *)

Module Readback.

Local Open Scope N_scope.

Record XPlmi_ReadBackProps := mkProps {
  DestAddr : N;
  MaxSize : N;
  ProcessedLen : N;
}.

(** The tracker: the properties of the tracked operation and whether
    one is in flight.  Sizes are natural numbers, and the overflow test
    is on the sum itself, as the contract words it. *)
Record Tracker := mkTracker {
  props : XPlmi_ReadBackProps;
  active : bool;
}.

Definition idle : Tracker := mkTracker (mkProps 0 0 0) false.

(** Modelled from the spec: [startTracking]. *)
Definition startTracking (destination maxSize : N) (t : Tracker)
  : result unit * Tracker :=
  if active t then (Err ConcurrentOperation, t)
  else (Ok tt, mkTracker (mkProps destination maxSize 0) true).

(** Modelled from the spec: [recordProgress]. *)
Definition recordProgress (delta : N) (t : Tracker)
  : result unit * Tracker :=
  let p := props t in
  if MaxSize p <? ProcessedLen p + delta then (Err Overflow, t)
  else (Ok tt,
        mkTracker (mkProps (DestAddr p) (MaxSize p) (ProcessedLen p + delta))
                  (active t)).

(** Modelled from the spec: [query]. *)
Definition query (t : Tracker) : XPlmi_ReadBackProps := props t.

End Readback.

(** ** Part III: properties of the interrupt router *)

Module IoModuleProofs.

Import IoModule.
Local Open Scope Z_scope.

Section Dispatch.

Context {P : Platform}.

Notation "x <- m ;; k" := (bind m (fun x => k))
  (at level 100, m at next level, right associativity).
Notation "m ;; k" := (bind m (fun _ => k))
  (at level 100, right associativity).

(** The pending mask covers the entry's mask. *)
Definition entry_pending (irq : Z) (e : HandlerTable) : bool :=
  Z.land irq (Mask e) =? Mask e.

(** What the dispatcher itself does for one table entry: nothing when
    the entry is not pending; otherwise one call of the bound handler
    (none when the pointer is NULL) followed by one write of the entry's
    mask to the acknowledge register. *)
Definition entry_events (irq : Z) (e : HandlerTable) (seg : list event)
  : Prop :=
  if entry_pending irq e then
    match Handler e with
    | Some h => exists body,
        seg = [EvHandler h body; EvWrite32 PSM_IOMODULE_IRQ_ACK (Mask e)]
    | None => seg = [EvWrite32 PSM_IOMODULE_IRQ_ACK (Mask e)]
    end
  else seg = [].

(** Values the dispatcher itself wrote to the acknowledge register. *)
Fixpoint ack_writes (tr : list event) : list Z :=
  match tr with
  | [] => []
  | EvWrite32 a v :: rest =>
      if a =? PSM_IOMODULE_IRQ_ACK then v :: ack_writes rest
      else ack_writes rest
  | _ :: rest => ack_writes rest
  end.

(** Handlers the dispatcher itself called, in call order. *)
Fixpoint handler_calls (tr : list event) : list irq_fn :=
  match tr with
  | [] => []
  | EvHandler h _ :: rest => h :: handler_calls rest
  | _ :: rest => handler_calls rest
  end.

(** Masks of the pending entries and their non-NULL handlers. *)
Definition pending_masks (irq : Z) (tbl : list HandlerTable) : list Z :=
  map Mask (List.filter (entry_pending irq) tbl).

Definition pending_handlers (irq : Z) (tbl : list HandlerTable)
  : list irq_fn :=
  omap Handler (List.filter (entry_pending irq) tbl).

Lemma exec_bind {A B} (m : M A) (k : A -> M B) (w : World) :
  exec (bind m k) w = exec (k (fst (m w))) (exec m w).
Proof. unfold exec, bind. destruct (m w); reflexivity. Qed.

Lemma exec_ret {A} (a : A) (w : World) : exec (ret a) w = w.
Proof. reflexivity. Qed.

Lemma trace_Write32 (a v : Z) (w : World) :
  trace (exec (XPsmFw_Write32 a v) w) = trace w ++ [EvWrite32 a v].
Proof. reflexivity. Qed.

Lemma trace_Printf t f args (w : World) :
  trace (exec (XPsmFw_Printf t f args) w) = trace w ++ [EvPrintf t f args].
Proof. reflexivity. Qed.

Lemma trace_Read32 (a : Z) (w : World) :
  trace (exec (XPsmFw_Read32 a) w)
  = trace w ++ [EvRead32 a (fst (XPsmFw_Read32 a w))].
Proof. unfold exec, XPsmFw_Read32. destruct (mmio_read a (hw w)); reflexivity. Qed.

Lemma trace_extern f args (w : World) :
  trace (exec (extern f args) w)
  = trace w ++ [EvExtern f args (fst (extern f args w))].
Proof. unfold exec, extern. destruct (extern_call f args (hw w)); reflexivity. Qed.

Lemma trace_call_Handler (h : irq_fn) (w : World) :
  trace (exec (call_Handler h) w)
  = trace w ++ [EvHandler h (trace (exec (irq_fn_code h) (set_trace [] w)))].
Proof. reflexivity. Qed.

Lemma body_events (irq : Z) (e : HandlerTable) (w : World) :
  exists seg,
    trace (exec (IntrHandler_body irq e) w) = trace w ++ seg
    /\ entry_events irq e seg.
Proof.
  unfold IntrHandler_body, entry_events, entry_pending.
  destruct (Z.land irq (Mask e) =? Mask e).
  - rewrite exec_bind, trace_Write32.
    destruct (Handler e) as [h|].
    + rewrite trace_call_Handler, <- app_assoc. simpl. eauto.
    + rewrite exec_ret. eauto.
  - exists []. rewrite exec_ret, app_nil_r. done.
Qed.

Lemma loop_app (hi lo : list HandlerTable) (irq : Z) (w : World) :
  exec (IntrHandler_loop (hi ++ lo) irq) w
  = exec (IntrHandler_loop lo irq) (exec (IntrHandler_loop hi irq) w).
Proof.
  revert w. induction hi as [|e hi IH]; intros w; simpl.
  - reflexivity.
  - rewrite !exec_bind. apply IH.
Qed.

Lemma loop_events (tbl : list HandlerTable) (irq : Z) (w : World) :
  exists segs,
    Forall2 (entry_events irq) tbl segs
    /\ trace (exec (IntrHandler_loop tbl irq) w) = trace w ++ concat segs.
Proof.
  revert w. induction tbl as [|e tbl IH]; intros w; simpl.
  - exists []. split; [constructor | by rewrite exec_ret, app_nil_r].
  - rewrite exec_bind.
    destruct (body_events irq e w) as (seg & Hseg & Hspec).
    destruct (IH (exec (IntrHandler_body irq e) w)) as (segs & Hall & Htr).
    exists (seg :: segs). split; [by constructor|].
    rewrite Htr, Hseg; simpl. by rewrite app_assoc.
Qed.

Lemma ack_writes_app (t1 t2 : list event) :
  ack_writes (t1 ++ t2) = ack_writes t1 ++ ack_writes t2.
Proof.
  induction t1 as [|[a v| a v | | |] t1 IH]; simpl; try done.
  destruct (a =? PSM_IOMODULE_IRQ_ACK); simpl; by rewrite IH.
Qed.

Lemma handler_calls_app (t1 t2 : list event) :
  handler_calls (t1 ++ t2) = handler_calls t1 ++ handler_calls t2.
Proof.
  induction t1 as [|[] t1 IH]; simpl; by rewrite ?IH.
Qed.

Lemma segs_acks (irq : Z) (tbl : list HandlerTable) segs :
  Forall2 (entry_events irq) tbl segs ->
  ack_writes (concat segs) = pending_masks irq tbl
  /\ handler_calls (concat segs) = pending_handlers irq tbl.
Proof.
  unfold pending_masks, pending_handlers.
  induction 1 as [|e seg tbl segs Hspec _ [IHa IHh]]; simpl; [done|].
  rewrite ack_writes_app, handler_calls_app, IHa, IHh.
  unfold entry_events in Hspec.
  destruct (entry_pending irq e); simpl.
  - destruct (Handler e) as [h|]; [destruct Hspec as [body ->] | subst seg];
      simpl; rewrite Z.eqb_refl; done.
  - subst seg. done.
Qed.

(** The pending mask one dispatch call works on: the value it reads
    from the pending register after its debug print. *)
Definition pending_read (IntrNumber : Z) (w : World) : Z :=
  fst (XPsmFw_Read32 PSM_IOMODULE_IRQ_PENDING
         (exec (XPsmFw_Printf DEBUG_DETAILED "Interrupt number = 0x%x\r\n"%string
                  [ArgX IntrNumber]) w)).

Lemma IntrHandler_unfold (IntrNumber : Z) (w : World) :
  exec (XPsmFw_IntrHandler IntrNumber) w
  = exec (IntrHandler_loop g_TopLevelInterruptTable
            (pending_read IntrNumber w))
      (exec (XPsmFw_Read32 PSM_IOMODULE_IRQ_PENDING)
         (exec (XPsmFw_Printf DEBUG_DETAILED "Interrupt number = 0x%x\r\n"%string
                  [ArgX IntrNumber]) w)).
Proof.
  unfold XPsmFw_IntrHandler. rewrite !exec_bind. reflexivity.
Qed.

(** The trace of one dispatch call with pending mask [irq]: each entry
    of the top-level table contributes, in table order, its own segment,
    a handler call when the pointer is not NULL followed by one write of
    its mask to the acknowledge register for an entry whose mask is
    contained in [irq], nothing for any other entry.  Hence the values
    written to the acknowledge register are the masks of the pending
    entries, once each, and the handlers called are those of the pending
    entries. *)
Lemma dispatch_trace_segments (IntrNumber : Z) (w : World) :
  let irq := pending_read IntrNumber w in
  exists segs,
    Forall2 (entry_events irq) g_TopLevelInterruptTable segs
    /\ trace (exec (XPsmFw_IntrHandler IntrNumber) w)
       = trace w
         ++ [EvPrintf DEBUG_DETAILED "Interrupt number = 0x%x\r\n"%string
               [ArgX IntrNumber];
             EvRead32 PSM_IOMODULE_IRQ_PENDING irq]
         ++ concat segs
    /\ ack_writes (concat segs) = pending_masks irq g_TopLevelInterruptTable
    /\ handler_calls (concat segs)
       = pending_handlers irq g_TopLevelInterruptTable.
Proof.
  intros irq. rewrite IntrHandler_unfold. fold irq.
  match goal with |- context [exec (IntrHandler_loop _ _) ?w0] =>
    destruct (loop_events g_TopLevelInterruptTable irq w0)
      as (segs & Hall & Htr) end.
  exists segs. split; [exact Hall|]. split.
  - rewrite Htr, trace_Read32, trace_Printf. fold (pending_read IntrNumber w).
    fold irq. by rewrite <- !app_assoc.
  - by apply segs_acks.
Qed.

(** *** Table order *)

(** The state of one dispatch call around the entry [e] that sits
    between the higher-priority entries [hi] and the lower-priority
    entries [lo]: [e] is inspected in the world [w_hi] reached when every
    entry of [hi] has been served, handler returned and acknowledge
    written; the entries of [lo] are inspected only from the world [w_e]
    in which [e] is fully served; the trace is the concatenation, in
    table order, of the segments of [hi], of [e] and of [lo]. *)
Definition served_in_order (IntrNumber : Z) (w : World)
  (hi : list HandlerTable) (e : HandlerTable) (lo : list HandlerTable)
  : Prop :=
  let irq := pending_read IntrNumber w in
  let w0 := exec (XPsmFw_Read32 PSM_IOMODULE_IRQ_PENDING)
              (exec (XPsmFw_Printf DEBUG_DETAILED
                       "Interrupt number = 0x%x\r\n"%string
                       [ArgX IntrNumber]) w) in
  let w_hi := exec (IntrHandler_loop hi irq) w0 in
  let w_e := exec (IntrHandler_body irq e) w_hi in
  exec (XPsmFw_IntrHandler IntrNumber) w = exec (IntrHandler_loop lo irq) w_e
  /\ exists segs_hi seg segs_lo,
       Forall2 (entry_events irq) hi segs_hi
       /\ entry_events irq e seg
       /\ Forall2 (entry_events irq) lo segs_lo
       /\ trace w_hi = trace w0 ++ concat segs_hi
       /\ trace w_e = trace w_hi ++ seg
       /\ trace (exec (XPsmFw_IntrHandler IntrNumber) w)
          = trace w_e ++ concat segs_lo.

(** The trace of one dispatch call splits along any cut
    [hi ++ e :: lo] of the table into the segments of [hi], of [e] and
    of [lo], in that order. *)
Lemma dispatch_trace_in_table_order (IntrNumber : Z) (w : World)
  (hi : list HandlerTable) (e : HandlerTable) (lo : list HandlerTable) :
  g_TopLevelInterruptTable = hi ++ e :: lo ->
  served_in_order IntrNumber w hi e lo.
Proof.
  intros Hcut. unfold served_in_order.
  rewrite IntrHandler_unfold, Hcut.
  set (irq := pending_read IntrNumber w).
  match goal with |- context [exec (IntrHandler_loop (hi ++ e :: lo) irq) ?x] =>
    set (w0 := x) end.
  assert (Hsplit : exec (IntrHandler_loop (hi ++ e :: lo) irq) w0
            = exec (IntrHandler_loop lo irq)
                (exec (IntrHandler_body irq e)
                   (exec (IntrHandler_loop hi irq) w0))).
  { rewrite loop_app. simpl. by rewrite exec_bind. }
  rewrite Hsplit. split; [reflexivity|].
  destruct (loop_events hi irq w0) as (segs_hi & Hhi & Thi).
  destruct (body_events irq e (exec (IntrHandler_loop hi irq) w0))
    as (seg & Te & He).
  destruct (loop_events lo irq
              (exec (IntrHandler_body irq e)
                 (exec (IntrHandler_loop hi irq) w0)))
    as (segs_lo & Hlo & Tlo).
  exists segs_hi, seg, segs_lo. done.
Qed.

(** *** IPI handler *)

Ltac trace_norm :=
  repeat first
    [ rewrite exec_ret | rewrite exec_bind | rewrite trace_Printf
    | rewrite trace_Write32 | rewrite trace_extern ].

Definition invalid_ipi_msg : event :=
  EvPrintf DEBUG_ERROR "Invalid IPI interrupt\r\n"%string [].

Definition ipi_error_msg : event :=
  EvPrintf DEBUG_ERROR "Error in handling IPI interrupt\r\n"%string [].

Definition is_write (ev : event) : bool :=
  match ev with EvWrite32 _ _ => true | _ => false end.

Definition is_extern (ev : event) : bool :=
  match ev with EvExtern _ _ _ => true | _ => false end.

(** C10. Every run of the IPI handler reads the IPI status register
    once, at entry, and writes the very value it read back to that
    register; this is the handler's only register write.  When the PMC
    bit is not set in the value read, the handler prints the
    invalid-IPI error, calls no dispatcher, still performs the clearing
    write, and leaves with its status at XST_FAILURE. *)
Theorem ipi_handler_clears_status_read (w : World) :
  let Mask := fst (XPsmFw_Read32 IPI_PSM_ISR w) in
  exists mid tail,
    trace (exec XPsmFw_InterruptIpiHandler w)
    = trace w ++ [EvRead32 IPI_PSM_ISR Mask] ++ mid
        ++ [EvWrite32 IPI_PSM_ISR Mask] ++ tail
    /\ forallb (fun ev => negb (is_write ev)) (mid ++ tail) = true
    /\ (IPI_PSM_ISR_PMC_MASK <> Z.land IPI_PSM_ISR_PMC_MASK Mask ->
        mid = [invalid_ipi_msg]
        /\ tail = (if XST_SUCCESS =? XST_FAILURE then [] else [ipi_error_msg])).
Proof.
  intros Mask. unfold XPsmFw_InterruptIpiHandler.
  rewrite exec_bind. fold Mask.
  set (w1 := exec (XPsmFw_Read32 IPI_PSM_ISR) w).
  assert (T1 : trace w1 = trace w ++ [EvRead32 IPI_PSM_ISR Mask])
    by apply trace_Read32.
  destruct (Z.eqb_spec IPI_PSM_ISR_PMC_MASK (Z.land IPI_PSM_ISR_PMC_MASK Mask))
    as [Hpmc | Hpmc]; simpl negb; cbv iota.
  - destruct XPAR_XIPIPSU_0_DEVICE_ID_defined.
    + rewrite exec_bind.
      set (St := fst (extern XPsmFw_DispatchIpiHandler [IPI_PSM_ISR_PMC_MASK] w1)).
      exists [EvExtern XPsmFw_DispatchIpiHandler [IPI_PSM_ISR_PMC_MASK] St],
        (if XST_SUCCESS =? St then [] else [ipi_error_msg]).
      split; [|split; [by destruct (XST_SUCCESS =? St) | done]].
      destruct (XST_SUCCESS =? St); simpl negb; cbv iota;
        trace_norm; fold St; rewrite T1; by rewrite <- ?app_assoc.
    + exists [EvPrintf DEBUG_ERROR "PSM IPI channel is not enabled\r\n"%string []],
        (if XST_SUCCESS =? XST_FAILURE then [] else [ipi_error_msg]).
      split; [|split; [by destruct (XST_SUCCESS =? XST_FAILURE) | done]].
      trace_norm; simpl fst.
      destruct (XST_SUCCESS =? XST_FAILURE); simpl negb; cbv iota;
        trace_norm; rewrite T1; by rewrite <- ?app_assoc.
  - exists [invalid_ipi_msg],
      (if XST_SUCCESS =? XST_FAILURE then [] else [ipi_error_msg]).
    split; [|split; [by destruct (XST_SUCCESS =? XST_FAILURE) | done]].
    trace_norm; simpl fst.
    destruct (XST_SUCCESS =? XST_FAILURE); simpl negb; cbv iota;
      trace_norm; rewrite T1; by rewrite <- ?app_assoc.
Qed.

(** *** Exception path *)

Lemma while_TRUE_never_returns (fuel : nat) (w : World) :
  while_TRUE fuel w = Running w.
Proof. induction fuel as [|fuel IH]; simpl; [reflexivity | exact IH]. Qed.

Lemma u16_small (z : Z) : 0 <= z < 65536 -> u16 z = z.
Proof. intros H. unfold u16. apply Z.mod_small. lia. Qed.

(** The registration loop started at [Index] returns once it has more
    fuel than ids left, having bound every id from [Index] to the last
    one to the fault handler and touched nothing else. *)
Lemma ExceptionInit_loop_returns (n : nat) :
  forall (Index : Z) (w : World) (fuel : nat),
    0 <= Index <= XIL_EXCEPTION_ID_LAST + 1 ->
    XIL_EXCEPTION_ID_LAST < 65535 ->
    n = Z.to_nat (XIL_EXCEPTION_ID_LAST + 1 - Index) ->
    (n < fuel)%nat ->
    exists w',
      ExceptionInit_loop fuel Index w = Returned tt w'
      /\ hw w' = hw w /\ IOModule w' = IOModule w /\ trace w' = trace w
      /\ forall id : Z,
           ExcTable w' !! id
           = if bool_decide (Index <= id <= XIL_EXCEPTION_ID_LAST)
             then Some (XPsmfw_ExceptionHandler_p, NULL)
             else ExcTable w !! id.
Proof.
  induction n as [|n IH]; intros Index w fuel HI HL Hn Hfuel;
    (destruct fuel as [|fuel]; [lia|]); simpl.
  - assert (Index = XIL_EXCEPTION_ID_LAST + 1) as -> by lia.
    destruct (Z.leb_spec (XIL_EXCEPTION_ID_LAST + 1) XIL_EXCEPTION_ID_LAST);
      [lia|].
    exists w. repeat split; try done.
    intros id. rewrite bool_decide_eq_false_2; [done | lia].
  - destruct (Z.leb_spec Index XIL_EXCEPTION_ID_LAST); [|lia].
    rewrite u16_small by lia.
    destruct (IH (Index + 1)
                (exec (Xil_ExceptionRegisterHandler Index
                         XPsmfw_ExceptionHandler_p NULL) w) fuel)
      as (w' & Hret & Hhw & Hio & Htr & Htab); [lia | lia | lia | lia |].
    exists w'. repeat split; try done.
    intros id. rewrite Htab. simpl.
    destruct (decide (id = Index)) as [-> | Hne].
    + rewrite lookup_insert_eq.
      rewrite bool_decide_eq_false_2 by lia.
      rewrite bool_decide_eq_true_2 by lia. done.
    + rewrite lookup_insert_ne by done.
      destruct (decide (Index + 1 <= id <= XIL_EXCEPTION_ID_LAST)).
      * rewrite !bool_decide_eq_true_2 by lia. done.
      * rewrite !bool_decide_eq_false_2 by lia. done.
Qed.

Lemma ExcTable_Connect Id h cb (w : World) :
  ExcTable (exec (IOModule_Connect Id h cb) w) = ExcTable w.
Proof.
  unfold exec, IOModule_Connect.
  destruct (XIOModule_Connect Id h cb (IOModule w, hw w)) as [st [io h']].
  reflexivity.
Qed.

Lemma ExcTable_Enable Id (w : World) :
  ExcTable (exec (IOModule_Enable Id) w) = ExcTable w.
Proof.
  unfold exec, IOModule_Enable.
  destruct (XIOModule_Enable Id (IOModule w, hw w)) as [io h'].
  reflexivity.
Qed.

Lemma ExcTable_Start (w : World) :
  ExcTable (exec IOModule_Start w) = ExcTable w.
Proof.
  unfold exec, IOModule_Start.
  destruct (XIOModule_Start (IOModule w, hw w)) as [st [io h']].
  reflexivity.
Qed.

Lemma ExcTable_Printf t f args (w : World) :
  ExcTable (exec (XPsmFw_Printf t f args) w) = ExcTable w.
Proof. reflexivity. Qed.

Lemma ExcTable_SetUp_loop (tbl : list HandlerTable) (w : World) :
  ExcTable (exec (SetUp_loop tbl) w) = ExcTable w.
Proof.
  revert w. induction tbl as [|e tbl IH]; intros w; simpl; [done|].
  rewrite !exec_bind, IH, ExcTable_Enable.
  destruct (negb _);
    [rewrite ExcTable_Printf | rewrite exec_ret]; apply ExcTable_Connect.
Qed.

(** The fault handler is bound to [id] in vector table [t]. *)
Definition fault_bound (t : gmap Z (exc_fn * Z)) (id : Z) : Prop :=
  t !! id = Some (XPsmfw_ExceptionHandler_p, NULL).

(** C7. With exception ids that fit the [u16] loop counter,
    XPsmfw_ExceptionInit returns with the fault handler registered for
    every exception id of the processor, and SetUpInterruptSystem leaves
    it registered for every such id but the interrupt id, which goes to
    the IO-module interrupt entry.  The fault handler, for whatever
    [Data] it is called with, writes the PSM non-correctable mask to the
    ERR1 trigger register and then never returns: for every bound on the
    run it is still running, in the world reached right after that one
    write. *)
Theorem exception_path_is_terminal :
  0 <= XIL_EXCEPTION_ID_FIRST <= XIL_EXCEPTION_ID_LAST ->
  XIL_EXCEPTION_ID_LAST < 65535 ->
  let enough fuel :=
    (Z.to_nat (XIL_EXCEPTION_ID_LAST + 1 - XIL_EXCEPTION_ID_FIRST) < fuel)%nat in
  (forall (w : World) (fuel : nat), enough fuel ->
     exists w', XPsmfw_ExceptionInit fuel w = Returned tt w'
       /\ forall id, XIL_EXCEPTION_ID_FIRST <= id <= XIL_EXCEPTION_ID_LAST ->
            fault_bound (ExcTable w') id)
  /\ (forall (w : World) (fuel : nat), enough fuel ->
     exists w', SetUpInterruptSystem fuel w = Returned XST_SUCCESS w'
       /\ (forall id, XIL_EXCEPTION_ID_FIRST <= id <= XIL_EXCEPTION_ID_LAST ->
             id <> XIL_EXCEPTION_ID_INT -> fault_bound (ExcTable w') id)
       /\ ExcTable w' !! XIL_EXCEPTION_ID_INT
          = Some (XIOModule_DeviceInterruptHandler_p, NULL))
  /\ (forall (fuel : nat) (Data : Z) (w : World),
     XPsmfw_ExceptionHandler fuel Data w
     = Running (exec (XPsmFw_Write32 PSM_GLOBAL_REG_ERR1_TRIG
                        PSM_GLOBAL_REG_ERR1_TRIG_PSM_B_NCR_MASK) w)
     /\ trace (exec (XPsmFw_Write32 PSM_GLOBAL_REG_ERR1_TRIG
                       PSM_GLOBAL_REG_ERR1_TRIG_PSM_B_NCR_MASK) w)
        = trace w ++ [EvWrite32 PSM_GLOBAL_REG_ERR1_TRIG
                        PSM_GLOBAL_REG_ERR1_TRIG_PSM_B_NCR_MASK]).
Proof.
  intros Hrange Hlast enough.
  assert (Hinit : forall (w : World) (fuel : nat), enough fuel ->
     exists w', XPsmfw_ExceptionInit fuel w = Returned tt w'
       /\ forall id, ExcTable w' !! id
            = if bool_decide (XIL_EXCEPTION_ID_FIRST <= id
                              <= XIL_EXCEPTION_ID_LAST)
              then Some (XPsmfw_ExceptionHandler_p, NULL)
              else ExcTable w !! id).
  { intros w fuel Hfuel. unfold XPsmfw_ExceptionInit.
    rewrite u16_small by lia.
    assert (HI : 0 <= XIL_EXCEPTION_ID_FIRST <= XIL_EXCEPTION_ID_LAST + 1)
      by lia.
    destruct (ExceptionInit_loop_returns _ XIL_EXCEPTION_ID_FIRST w fuel
                HI Hlast eq_refl Hfuel)
      as (w' & Hret & _ & _ & _ & Htab).
    eauto. }
  split; [|split].
  - intros w fuel Hfuel. destruct (Hinit w fuel Hfuel) as (w' & Hret & Htab).
    exists w'. split; [done|]. intros id Hid. unfold fault_bound.
    rewrite Htab, bool_decide_eq_true_2; done.
  - intros w fuel Hfuel. unfold SetUpInterruptSystem.
    match goal with |- context [XPsmfw_ExceptionInit fuel ?x] =>
      destruct (Hinit x fuel Hfuel) as (w' & Hret & Htab) end.
    rewrite Hret. eexists. split; [reflexivity|]. simpl. split.
    + intros id Hid Hne. unfold fault_bound.
      rewrite lookup_insert_ne by done.
      rewrite Htab, bool_decide_eq_true_2; done.
    + apply lookup_insert_eq.
  - intros fuel Data w. split; [|apply trace_Write32].
    unfold XPsmfw_ExceptionHandler. apply while_TRUE_never_returns.
Qed.

(** *** STL override and restore *)

(** What is assumed of the IO-module driver: connecting a handler to
    an id below the table size succeeds, binds that id to the handler
    and its callback reference and leaves the other ids alone; enabling
    or disabling an interrupt changes no binding. *)
Record DriverLaws : Prop := {
  connect_binds : forall Id h cb s,
    0 <= Id < XPAR_IOMODULE_INTC_MAX_INTR_SIZE ->
    let r := XIOModule_Connect Id (Some h) cb s in
    fst r = XST_SUCCESS
    /\ XIOModule_binding (fst (snd r)) Id = Some (h, cb)
    /\ forall j, j <> Id ->
         XIOModule_binding (fst (snd r)) j = XIOModule_binding (fst s) j;
  enable_keeps : forall Id s j,
    XIOModule_binding (fst (XIOModule_Enable Id s)) j
    = XIOModule_binding (fst s) j;
  disable_keeps : forall Id s j,
    XIOModule_binding (fst (XIOModule_Disable Id s)) j
    = XIOModule_binding (fst s) j;
}.

(** The call [m] returned XST_SUCCESS and left interrupt [n] bound to
    [h] with a NULL callback reference, every other binding as it was. *)
Definition installs (m : M Z) (w : World) (n : Z) (h : intr_fn) : Prop :=
  fst (m w) = XST_SUCCESS
  /\ XIOModule_binding (IOModule (exec m w)) n = Some (h, NULL)
  /\ forall j, j <> n ->
       XIOModule_binding (IOModule (exec m w)) j
       = XIOModule_binding (IOModule w) j.

Lemma connect_sequence_installs (L : DriverLaws) (n : Z) (h : intr_fn)
  (w : World) :
  0 <= n < XPAR_IOMODULE_INTC_MAX_INTR_SIZE ->
  installs
    (IOModule_Disable n ;;
     Status <- IOModule_Connect n (Some h) NULL ;;
     if negb (XST_SUCCESS =? Status) then ret Status
     else (IOModule_Enable n ;; ret Status)) w n h.
Proof.
  intros Hn. unfold installs, exec, bind, IOModule_Disable, IOModule_Connect,
    IOModule_Enable, ret.
  pose proof (disable_keeps L n (IOModule w, hw w)) as Hd.
  destruct (XIOModule_Disable n (IOModule w, hw w)) as [io1 h1]. simpl in Hd.
  simpl.
  pose proof (connect_binds L n h NULL (io1, h1) Hn) as (Hst & Hb & Ho).
  destruct (XIOModule_Connect n (Some h) NULL (io1, h1)) as [st [io2 h2]].
  simpl in Hst, Hb, Ho. subst st. rewrite Z.eqb_refl. simpl.
  pose proof (enable_keeps L n (io2, h2)) as He.
  destruct (XIOModule_Enable n (io2, h2)) as [io3 h3]. simpl in He. simpl.
  split; [done|]. split.
  - by rewrite He.
  - intros j Hj. rewrite He, Ho, Hd; done.
Qed.

(** C9. Override with a NULL handler or an interrupt number at or
    above the table size, and restore with such a number, return
    XST_INVALID_PARAM and leave the whole world, hence every binding of
    the driver, as it was.  For a number below the table size and a
    driver that honours its connect contract, override binds the
    supplied handler to that interrupt and restore binds
    [XPsmFw_IntrHandler], the default dispatcher, again; no other
    interrupt's binding changes. *)
Theorem stl_override_and_restore_guarded :
  (forall (n : Z) (h : option intr_fn) (w : World),
     h = None \/ XPAR_IOMODULE_INTC_MAX_INTR_SIZE <= n ->
     XPsmFw_RegisterStlInterruptHandler n h w = (XST_INVALID_PARAM, w))
  /\ (forall (n : Z) (w : World),
     XPAR_IOMODULE_INTC_MAX_INTR_SIZE <= n ->
     XPsmFw_RestoreInterruptHandler n w = (XST_INVALID_PARAM, w))
  /\ (DriverLaws ->
      forall (n : Z) (h : intr_fn) (w : World),
        0 <= n < XPAR_IOMODULE_INTC_MAX_INTR_SIZE ->
        installs (XPsmFw_RegisterStlInterruptHandler n (Some h)) w n h
        /\ installs (XPsmFw_RestoreInterruptHandler n) w n
             XPsmFw_IntrHandler_p).
Proof.
  split; [|split].
  - intros n h w [-> | Hn]; unfold XPsmFw_RegisterStlInterruptHandler.
    + reflexivity.
    + destruct (Z.leb_spec XPAR_IOMODULE_INTC_MAX_INTR_SIZE n); [|lia].
      rewrite orb_true_r. reflexivity.
  - intros n w Hn. unfold XPsmFw_RestoreInterruptHandler.
    destruct (Z.leb_spec XPAR_IOMODULE_INTC_MAX_INTR_SIZE n); [|lia].
    reflexivity.
  - intros L n h w Hn.
    unfold XPsmFw_RegisterStlInterruptHandler, XPsmFw_RestoreInterruptHandler.
    destruct (Z.leb_spec XPAR_IOMODULE_INTC_MAX_INTR_SIZE n); [lia|].
    simpl. split; by apply connect_sequence_installs.
Qed.

End Dispatch.

(** *** A concrete board

    One instance of the platform, with a plain register file behind the
    bus, dispatchers that report success and a driver that keeps its
    bindings in a table; the general statements are exercised on it. *)

Definition board : Platform := {|
  HW := Z -> Z;
  mmio_read := fun a h => (h a, h);
  mmio_write := fun a v h => fun x => if x =? a then v else h x;
  extern_call := fun _ _ h => (0, h);
  XST_SUCCESS := 0;
  XST_FAILURE := 1;
  XST_INVALID_PARAM := 15;
  IPI_PSM_ISR := 0xFF310010;
  IPI_PSM_ISR_PMC_MASK := 0x2;
  PSM_GLOBAL_REG_REQ_PWRUP_STATUS := 0xFFC90110;
  PSM_GLOBAL_REG_REQ_PWRUP_INT_MASK := 0xFFC90114;
  PSM_GLOBAL_REG_REQ_PWRDWN_STATUS := 0xFFC90210;
  PSM_GLOBAL_REG_REQ_PWRDWN_INT_MASK := 0xFFC90214;
  PSM_GLOBAL_REG_WAKEUP_IRQ_STATUS := 0xFFC90700;
  PSM_GLOBAL_REG_WAKEUP_IRQ_MASK := 0xFFC90704;
  PSM_GLOBAL_REG_PWR_CTRL_IRQ_STATUS := 0xFFC90714;
  PSM_GLOBAL_REG_PWR_CTRL_IRQ_MASK := 0xFFC90718;
  PSM_GLOBAL_GICP2_IRQ_STATUS := 0xFFC901A0;
  PSM_GLOBAL_GICP2_IRQ_MASK := 0xFFC901A4;
  PSM_GLOBAL_REG_ERR1_TRIG := 0xFFC90408;
  PSM_GLOBAL_REG_ERR1_TRIG_PSM_B_NCR_MASK := 0x10;
  PSM_IOMODULE_IRQ_PENDING := 0xFFC80034;
  PSM_IOMODULE_IRQ_ACK := 0xFFC8003C;
  PSM_IOMODULE_IRQ_PENDING_IPI_SHIFT := 16;
  PSM_IOMODULE_IRQ_PENDING_IPI_MASK := 0x10000;
  PSM_IOMODULE_IRQ_PENDING_PWR_UP_REQ_SHIFT := 17;
  PSM_IOMODULE_IRQ_PENDING_PWR_UP_REQ_MASK := 0x20000;
  PSM_IOMODULE_IRQ_PENDING_PWR_DWN_REQ_SHIFT := 18;
  PSM_IOMODULE_IRQ_PENDING_PWR_DWN_REQ_MASK := 0x40000;
  PSM_IOMODULE_IRQ_PENDING_WAKE_UP_REQ_SHIFT := 19;
  PSM_IOMODULE_IRQ_PENDING_WAKE_UP_REQ_MASK := 0x80000;
  PSM_IOMODULE_IRQ_PENDING_PWR_CNT_REQ_SHIFT := 20;
  PSM_IOMODULE_IRQ_PENDING_PWR_CNT_REQ_MASK := 0x100000;
  PSM_IOMODULE_IRQ_PENDING_SW_RST_REQ_SHIFT := 21;
  PSM_IOMODULE_IRQ_PENDING_SW_RST_REQ_MASK := 0x200000;
  PSM_IOMODULE_IRQ_PENDING_GICP_INT_SHIFT := 22;
  PSM_IOMODULE_IRQ_PENDING_GICP_INT_MASK := 0x400000;
  XIL_EXCEPTION_ID_FIRST := 0;
  XIL_EXCEPTION_ID_LAST := 7;
  XIL_EXCEPTION_ID_INT := 16;
  XPAR_IOMODULE_INTC_MAX_INTR_SIZE := 32;
  XPAR_XIPIPSU_0_DEVICE_ID_defined := true;
  XIOModule := Z -> option (intr_fn * Z);
  XIOModule_Connect := fun Id h cb s =>
    match h with
    | Some f => (0, (fun j => if j =? Id then Some (f, cb) else fst s j, snd s))
    | None => (1, s)
    end;
  XIOModule_Enable := fun _ s => s;
  XIOModule_Disable := fun _ s => s;
  XIOModule_Start := fun s => (0, s);
  XIOModule_binding := fun io j => io j;
  Xil_ExceptionEnable_hw := fun h => h;
  mfmsr_hw := fun _ => 0x8;
  mtmsr_hw := fun _ h => h;
|}.

(** A world of the board in which the power-up and power-down requests
    are pending and the IPI status register holds no PMC bit. *)
Definition board_world : @World board :=
  @mkWorld board
    (fun a => if a =? 0xFFC80034 then 0x60000 else 0)
    (fun _ => None) ∅ [].

Lemma board_driver_laws : @DriverLaws board.
Proof.
  split; simpl.
  - intros Id h cb s _. split; [done|]. split.
    + by rewrite Z.eqb_refl.
    + intros j Hj. destruct (Z.eqb_spec j Id); [done | done].
  - done.
  - done.
Qed.

Lemma ipi_handler_clears_status_read_witness :
  exists mid tail,
    trace (exec (@XPsmFw_InterruptIpiHandler board) board_world)
    = [EvRead32 0xFF310010 0] ++ mid ++ [EvWrite32 0xFF310010 0] ++ tail
    /\ mid = [@invalid_ipi_msg] /\ tail = [@ipi_error_msg].
Proof.
  destruct (@ipi_handler_clears_status_read board board_world)
    as (mid & tail & Htr & _ & Hinv).
  exists mid, tail. split; [exact Htr|].
  apply Hinv. vm_compute. discriminate.
Defined.

Lemma exception_path_is_terminal_witness :
  0 <= 0 <= 7 /\ 7 < 65535
  /\ (exists w', @SetUpInterruptSystem board 10 board_world = Returned 0 w'
        /\ ExcTable w' !! 3 = Some (XPsmfw_ExceptionHandler_p, 0))
  /\ forall fuel Data,
       @XPsmfw_ExceptionHandler board fuel Data board_world
       = Running (exec (@XPsmFw_Write32 board 0xFFC90408 0x10) board_world).
Proof.
  assert (H1 : 0 <= 0 <= 7) by lia.
  assert (H2 : 7 < 65535) by lia.
  split; [exact H1|]. split; [exact H2|].
  destruct (@exception_path_is_terminal board H1 H2) as (_ & Hsetup & Hhandler).
  split.
  - destruct (Hsetup board_world 10%nat) as (w' & Hret & Hfault & _).
    { vm_compute. lia. }
    exists w'. split; [exact Hret|]. apply Hfault; simpl; lia.
  - intros fuel Data. apply Hhandler.
Defined.

Lemma stl_override_and_restore_guarded_witness :
  @XPsmFw_RegisterStlInterruptHandler board 32 (Some (Stl_p 0x2000))
     board_world = (15, board_world)
  /\ @XPsmFw_RegisterStlInterruptHandler board 3 None board_world
     = (15, board_world)
  /\ @XPsmFw_RestoreInterruptHandler board 200 board_world = (15, board_world)
  /\ @installs board (@XPsmFw_RegisterStlInterruptHandler board 3
                        (Some (Stl_p 0x2000))) board_world 3 (Stl_p 0x2000)
  /\ @installs board (@XPsmFw_RestoreInterruptHandler board 3) board_world 3
       XPsmFw_IntrHandler_p.
Proof.
  destruct (@stl_override_and_restore_guarded board) as (Hreg & Hres & Hok).
  split; [apply Hreg; right; simpl; lia|].
  split; [apply Hreg; left; reflexivity|].
  split; [apply Hres; simpl; lia|].
  apply (Hok board_driver_laws 3 (Stl_p 0x2000) board_world). simpl. lia.
Defined.

End IoModuleProofs.

(** ** Part IV: properties of the PLM services *)

(** *** Readback progress tracker *)

Module ReadbackProofs.

Import Readback.
Local Open Scope N_scope.

(** The state after a sequence of [recordProgress] calls. *)
Definition record_all (deltas : list N) (t : Tracker) : Tracker :=
  fold_left (fun t d => snd (recordProgress d t)) deltas t.

(** C4. From a state with [ProcessedLen <= MaxSize], any
    [recordProgress delta] ends in such a state again.  When the sum
    would exceed [MaxSize] the call returns [Overflow] and the state is
    the one it started from; otherwise it succeeds and [ProcessedLen]
    has grown by exactly [delta], the rest of the state being kept. *)
Theorem recordProgress_never_overflows (delta : N) (t : Tracker) :
  ProcessedLen (props t) <= MaxSize (props t) ->
  let r := recordProgress delta t in
  ProcessedLen (props (snd r)) <= MaxSize (props (snd r))
  /\ (MaxSize (props t) < ProcessedLen (props t) + delta ->
      r = (Err Overflow, t))
  /\ (ProcessedLen (props t) + delta <= MaxSize (props t) ->
      fst r = Ok tt
      /\ ProcessedLen (props (snd r)) = ProcessedLen (props t) + delta
      /\ MaxSize (props (snd r)) = MaxSize (props t)
      /\ DestAddr (props (snd r)) = DestAddr (props t)
      /\ active (snd r) = active t).
Proof.
  intros Hinv r. subst r. unfold recordProgress.
  destruct (N.ltb_spec (MaxSize (props t)) (ProcessedLen (props t) + delta))
    as [Hover | Hfit]; simpl.
  - split; [exact Hinv|]. split; [reflexivity | lia].
  - split; [exact Hfit|]. split; [lia | done].
Qed.

Lemma recordProgress_never_overflows_witness :
  let t := snd (recordProgress 60 (snd (startTracking 0x4000 100 idle))) in
  ProcessedLen (props t) <= MaxSize (props t)
  /\ ProcessedLen (props t) = 60
  /\ recordProgress 50 t = (Err Overflow, t).
Proof.
  intros t.
  assert (Hinv : ProcessedLen (props t) <= MaxSize (props t))
    by (vm_compute; discriminate).
  split; [exact Hinv|]. split; [reflexivity|].
  apply (recordProgress_never_overflows 50 t Hinv).
  vm_compute. reflexivity.
Defined.

(** The bound survives every sequence of calls made after
    [startTracking]. *)
Lemma record_all_bounded (deltas : list N) (t : Tracker) :
  ProcessedLen (props t) <= MaxSize (props t) ->
  ProcessedLen (props (record_all deltas t))
  <= MaxSize (props (record_all deltas t)).
Proof.
  revert t. induction deltas as [|d deltas IH]; intros t Hinv; simpl.
  - exact Hinv.
  - apply IH. unfold recordProgress.
    destruct (N.ltb_spec (MaxSize (props t)) (ProcessedLen (props t) + d));
      simpl; [exact Hinv | assumption].
Qed.

End ReadbackProofs.

(** *** Procedure catalog *)

Module CatalogProofs.

Import Catalog.
Local Open Scope Z_scope.

Lemma lookup_proc_None (procId : Z) (entries : list XPlmi_ProcData) :
  lookup_proc procId entries = None <-> ~ In procId (map Id entries).
Proof.
  induction entries as [|e entries IH]; simpl.
  - tauto.
  - destruct (Z.eqb_spec (Id e) procId) as [Heq | Hne].
    + split; [discriminate | intros H; exfalso; apply H; by left].
    + rewrite IH. tauto.
Qed.

Lemma lookup_proc_Some (procId : Z) (entries : list XPlmi_ProcData) :
  In procId (map Id entries) <-> exists a, lookup_proc procId entries = Some a.
Proof.
  destruct (lookup_proc procId entries) as [a|] eqn:E.
  - split; [eauto|]. intros _.
    destruct (in_dec Z.eq_dec procId (map Id entries)) as [Hin | Hout];
      [exact Hin|]. apply lookup_proc_None in Hout. congruence.
  - apply lookup_proc_None in E. split; [tauto | intros [a Ha]; discriminate].
Qed.

(** The pairs supplied by the most recent call of a history that
    [setCatalog] answered with [Ok].  The history is replayed through
    [setCatalog] itself, oldest first, from catalog [cat]; [recent] is
    what the last successful call before the history supplied. *)
Fixpoint successful_pairs (history : list load) (cat : XPlmi_ProcList)
  (recent : list XPlmi_ProcData) : list XPlmi_ProcData :=
  match history with
  | [] => recent
  | l :: rest =>
      let (r, cat') :=
        setCatalog (load_mem l) (load_address l) (load_size l) cat in
      successful_pairs rest cat'
        (if is_Ok r
         then region_entries (load_mem l) (load_address l) (load_size l)
         else recent)
  end.

Definition most_recent_successful (history : list load)
  : list XPlmi_ProcData :=
  successful_pairs history empty_catalog [].

(** A load within the capacity is answered with [Ok] and installs
    exactly the pairs of its region. *)
Lemma setCatalog_within_capacity (m : Mem) (regionAddress regionSize : Z)
  (cat : XPlmi_ProcList) :
  implied_count regionSize <= XPLMI_MAX_PROCS_SUPPORTED ->
  setCatalog m regionAddress regionSize cat
  = (Ok tt, mkProcList (implied_count regionSize)
              (region_entries m regionAddress regionSize)).
Proof.
  intros Hfit. unfold setCatalog.
  destruct (Z.ltb_spec XPLMI_MAX_PROCS_SUPPORTED (implied_count regionSize));
    [lia | reflexivity].
Qed.

Lemma setCatalog_beyond_capacity (m : Mem) (regionAddress regionSize : Z)
  (cat : XPlmi_ProcList) :
  XPLMI_MAX_PROCS_SUPPORTED < implied_count regionSize ->
  setCatalog m regionAddress regionSize cat = (Err CapacityExceeded, cat).
Proof.
  intros Hover. unfold setCatalog.
  destruct (Z.ltb_spec XPLMI_MAX_PROCS_SUPPORTED (implied_count regionSize));
    [reflexivity | lia].
Qed.

(** The catalog always holds the pairs of the most recent load that
    [setCatalog] answered with [Ok]. *)
Lemma ProcData_after_history (history : list load) (cat : XPlmi_ProcList) :
  ProcData (fold_left apply_load history cat)
  = successful_pairs history cat (ProcData cat).
Proof.
  revert cat. induction history as [|l history IH]; intros cat; simpl.
  - reflexivity.
  - rewrite IH. unfold apply_load.
    destruct (Z.le_gt_cases (implied_count (load_size l))
                XPLMI_MAX_PROCS_SUPPORTED) as [Hfit | Hover].
    + rewrite setCatalog_within_capacity by exact Hfit. reflexivity.
    + rewrite setCatalog_beyond_capacity by lia. reflexivity.
Qed.

Section Execute.

Variable St : Type.
Variable run : Z -> St -> Z * St.

(** C3. A load within the capacity is answered with [Ok] and installs
    its pairs.  After any history of bulk loads, [execute id] succeeds
    (it resolves the id and hands control to the runner) exactly when
    [id] is among the ids supplied by the most recent load that
    [setCatalog] answered with [Ok]: an absent id yields [NotFound],
    and nothing else does, and leaves the runner's state alone; a
    present id hands the runner the address of its first matching pair
    and yields the runner's status code as it is.  In the scenario (ids
    0..9 at [0x1000 + 0x40 * id]) the load is answered with [Ok] and
    installs ten entries, id 9 resolves to [0x1240] and id 10 is
    [NotFound]. *)
Theorem execute_succeeds_iff_registered :
  (forall (m : Mem) (regionAddress regionSize : Z) (cat : XPlmi_ProcList),
     implied_count regionSize <= XPLMI_MAX_PROCS_SUPPORTED ->
     setCatalog m regionAddress regionSize cat
     = (Ok tt, mkProcList (implied_count regionSize)
                 (region_entries m regionAddress regionSize)))
  /\ (forall (history : list load) (procId : Z) (s : St),
     let cat := after_loads history in
     let registered := most_recent_successful history in
     ((exists a, lookup_proc procId registered = Some a
                 /\ execute St run procId cat s
                    = (Ok (fst (run a s)), snd (run a s)))
      <-> In procId (map Id registered))
     /\ (fst (execute St run procId cat s) = Err NotFound
         <-> ~ In procId (map Id registered))
     /\ (~ In procId (map Id registered) ->
         execute St run procId cat s = (Err NotFound, s))
     /\ (forall a, lookup_proc procId registered = Some a ->
         execute St run procId cat s
         = (Ok (fst (run a s)), snd (run a s))))
  /\ (forall s : St,
     let cat := after_loads [scenario_load] in
     setCatalog scenario_mem 0x8000 80 empty_catalog = (Ok tt, cat)
     /\ most_recent_successful [scenario_load] = ProcData cat
     /\ ProcCount cat = 10
     /\ map Id (ProcData cat) = [0; 1; 2; 3; 4; 5; 6; 7; 8; 9]
     /\ lookup_proc 9 (ProcData cat) = Some 0x1240
     /\ execute St run 9 cat s = (Ok (fst (run 0x1240 s)), snd (run 0x1240 s))
     /\ execute St run 10 cat s = (Err NotFound, s)).
Proof.
  split; [exact setCatalog_within_capacity|]. split.
  - intros history procId s cat registered.
    assert (Hdata : ProcData cat = registered)
      by (unfold cat, after_loads; apply ProcData_after_history).
    unfold execute. rewrite Hdata.
    destruct (lookup_proc procId registered) as [a|] eqn:E.
    + assert (Hin : In procId (map Id registered))
        by (apply lookup_proc_Some; eauto).
      destruct (run a s) as [code s'] eqn:R. simpl.
      split; [split; [tauto|]; intros _; exists a; by rewrite R|].
      split; [split; [discriminate | tauto]|].
      split; [tauto|].
      intros a' [= <-]. rewrite R. reflexivity.
    + assert (Hout : ~ In procId (map Id registered))
        by (by apply lookup_proc_None).
      simpl. split; [split; [intros (a & Ha & _); discriminate | tauto]|].
      split; [tauto|]. split; [reflexivity | discriminate].
  - intros s cat. repeat split; try reflexivity.
    unfold execute. change (lookup_proc 9 (ProcData cat)) with (Some 0x1240).
    cbv beta iota. destruct (run 0x1240 s); reflexivity.
Qed.

End Execute.

(** A runner for trials: it logs the start address and reports 0. *)
Definition log_run (a : Z) (s : list Z) : Z * list Z := (0, s ++ [a]).

(** A history in which the scenario load is followed by a load that is
    one pair too large. *)
Definition scenario_history : list load :=
  [scenario_load; mkLoad scenario_mem 0x8000 88].

Lemma execute_succeeds_iff_registered_witness :
  lookup_proc 9 (most_recent_successful scenario_history) = Some 0x1240
  /\ ~ In 10 (map Id (most_recent_successful scenario_history))
  /\ execute _ log_run 9 (after_loads scenario_history) [] = (Ok 0, [0x1240])
  /\ execute _ log_run 10 (after_loads scenario_history) []
     = (Err NotFound, []).
Proof.
  assert (H9 : lookup_proc 9 (most_recent_successful scenario_history)
               = Some 0x1240) by reflexivity.
  assert (H10 : ~ In 10 (map Id (most_recent_successful scenario_history))).
  { vm_compute. intros H. repeat (destruct H as [H | H]; [discriminate|]).
    exact H. }
  split; [exact H9|]. split; [exact H10|].
  destruct (execute_succeeds_iff_registered _ log_run) as (_ & Hgen & _).
  destruct (Hgen scenario_history 9 []) as (_ & _ & _ & Hin).
  destruct (Hgen scenario_history 10 []) as (_ & _ & Hout & _).
  split; [exact (Hin _ H9) | exact (Hout H10)].
Defined.

(** C8. A bulk load whose region size implies more than
    [XPLMI_MAX_PROCS_SUPPORTED] pairs fails with [CapacityExceeded] and
    the catalog is the prior one, count and entries untouched. *)
Theorem setCatalog_over_capacity_installs_nothing (m : Mem)
  (regionAddress regionSize : Z) (cat : XPlmi_ProcList) :
  XPLMI_MAX_PROCS_SUPPORTED < implied_count regionSize ->
  setCatalog m regionAddress regionSize cat = (Err CapacityExceeded, cat).
Proof.
  intros Hover. unfold setCatalog.
  destruct (Z.ltb_spec XPLMI_MAX_PROCS_SUPPORTED (implied_count regionSize));
    [reflexivity | lia].
Qed.

Lemma setCatalog_over_capacity_installs_nothing_witness :
  XPLMI_MAX_PROCS_SUPPORTED < implied_count 88
  /\ setCatalog scenario_mem 0x8000 88 (after_loads [scenario_load])
     = (Err CapacityExceeded, after_loads [scenario_load]).
Proof.
  assert (H : XPLMI_MAX_PROCS_SUPPORTED < implied_count 88)
    by (vm_compute; reflexivity).
  split; [exact H|].
  apply (setCatalog_over_capacity_installs_nothing _ _ _ _ H).
Defined.

End CatalogProofs.

(** *** Keyhole transfer engine *)

Module KeyholeProofs.

Import Keyhole.
Local Open Scope N_scope.

(** Closed form of a transfer of [T] bytes through a window of [W]:
    [full_steps] steps of a whole window that do not complete, then one
    step of [final_chunk] bytes that does. *)
Definition final_chunk (T W : N) : N :=
  if T mod W =? 0 then W else T mod W.

Definition full_steps (T W : N) : nat :=
  N.to_nat (if T mod W =? 0 then T / W - 1 else T / W).

Definition full_report (W : N) (j : N) (i : nat) : StepReport :=
  mkReport W ((j + N.of_nat (S i)) * W) false.

Definition expected_reports (T W : N) : list StepReport :=
  map (full_report W 0) (seq 0 (full_steps T W))
  ++ [mkReport (final_chunk T W) T true].

Definition reports {Space} (fuel : nat) (x : KeyholeTransferState Space)
  (sp : Space) : list StepReport :=
  fst (fst (run_transfer fuel x sp)).

Definition final_state {Space} (fuel : nat) (x : KeyholeTransferState Space)
  (sp : Space) : KeyholeTransferState Space :=
  snd (fst (run_transfer fuel x sp)).

(** A transfer as [beginTransfer] hands it out. *)
Definition fresh {Space} (x : KeyholeTransferState Space) : Prop :=
  bytesTransferred x = 0 /\ 0 < totalLength x /\ 0 < windowSize x.

Section Steps.

Context {Space : Type}.
Implicit Types (x : KeyholeTransferState Space) (sp : Space).

Lemma beginTransfer_fresh src dst T W moveFn fixedDest alignOk x :
  beginTransfer Space src dst T W moveFn fixedDest alignOk = Ok x ->
  fresh x /\ totalLength x = T /\ windowSize x = W.
Proof.
  unfold beginTransfer, fresh.
  destruct (N.ltb_spec 0 W); simpl; [|discriminate].
  destruct (N.ltb_spec 0 T); simpl; [|discriminate].
  destruct (alignOk W); [|discriminate].
  intros [= <-]. simpl. done.
Qed.

Lemma step_chunk x sp :
  chunkLength (fst (fst (step x sp)))
  = N.min (windowSize x) (totalLength x - bytesTransferred x).
Proof. reflexivity. Qed.

(** One step keeps the lengths, never lowers the counter and keeps it
    within the total. *)
Lemma step_invariant x sp :
  bytesTransferred x <= totalLength x ->
  let x' := snd (fst (step x sp)) in
  totalLength x' = totalLength x /\ windowSize x' = windowSize x
  /\ bytesTransferred x <= bytesTransferred x'
  /\ bytesTransferred x' <= totalLength x'.
Proof. intros H. simpl. lia. Qed.

Lemma step_n_invariant (n : nat) x sp :
  bytesTransferred x <= totalLength x ->
  let xn := fst (step_n n x sp) in
  totalLength xn = totalLength x /\ windowSize xn = windowSize x
  /\ bytesTransferred x <= bytesTransferred xn
  /\ bytesTransferred xn <= totalLength xn.
Proof.
  revert x sp. induction n as [|n IH]; intros x sp H; cbn [step_n].
  - simpl. lia.
  - pose proof (step_invariant x sp H) as Hs.
    destruct (step x sp) as [[r x'] sp']. cbn [fst snd] in Hs.
    destruct Hs as (HT & HW & Hmono & Hle).
    specialize (IH x' sp' Hle). cbv zeta in IH |- *. lia.
Qed.

Lemma step_n_succ (n : nat) x sp :
  fst (step_n (S n) x sp)
  = snd (fst (step (fst (step_n n x sp)) (snd (step_n n x sp)))).
Proof.
  revert x sp. induction n as [|n IH]; intros x sp.
  - simpl. destruct (step x sp) as [[r x'] sp']. reflexivity.
  - change (step_n (S (S n)) x sp)
      with (let '(_, x', sp') := step x sp in step_n (S n) x' sp').
    change (step_n (S n) x sp)
      with (let '(_, x', sp') := step x sp in step_n n x' sp').
    destruct (step x sp) as [[r x'] sp']. apply IH.
Qed.

Lemma map_full_report_shift (W j : N) (k : nat) :
  map (full_report W j) (seq 1 k) = map (full_report W (j + 1)) (seq 0 k).
Proof.
  rewrite <- seq_shift, map_map. apply map_ext. intros i.
  unfold full_report. f_equal. lia.
Qed.

(** From a counter at [j] whole windows with [k] more whole windows to
    go before the last step, the run reports [k] non-final whole-window
    steps and one final step, and ends with everything transferred. *)
Lemma run_from (k : nat) :
  forall (j : N) x sp (fuel : nat),
    bytesTransferred x = j * windowSize x ->
    (j + N.of_nat k) * windowSize x < totalLength x ->
    totalLength x <= (j + N.of_nat k + 1) * windowSize x ->
    (k < fuel)%nat ->
    reports fuel x sp
    = map (full_report (windowSize x) j) (seq 0 k)
      ++ [mkReport (totalLength x - (j + N.of_nat k) * windowSize x)
            (totalLength x) true]
    /\ bytesTransferred (final_state fuel x sp) = totalLength x.
Proof.
  unfold reports, final_state.
  induction k as [|k IH]; intros j x sp fuel Hb Hlo Hhi Hfuel;
    (destruct fuel as [|fuel]; [lia|]);
    cbn [run_transfer step complete].
  - assert (Hmin : N.min (windowSize x) (totalLength x - bytesTransferred x)
                   = totalLength x - j * windowSize x) by lia.
    rewrite Hmin, Hb.
    assert (Hsum : j * windowSize x + (totalLength x - j * windowSize x)
                   = totalLength x) by lia.
    rewrite Hsum, N.eqb_refl. simpl. split; [|reflexivity].
    do 2 f_equal. lia.
  - assert (Hmin : N.min (windowSize x) (totalLength x - bytesTransferred x)
                   = windowSize x) by lia.
    rewrite Hmin, Hb.
    destruct (N.eqb_spec (j * windowSize x + windowSize x) (totalLength x))
      as [Heq | Hne]; [lia|].
    match goal with |- context [run_transfer fuel ?y ?s] =>
      specialize (IH (j + 1) y s fuel);
      destruct (run_transfer fuel y s) as [[rs x''] sp''] end.
    cbn [fst snd totalLength windowSize bytesTransferred] in IH |- *.
    destruct IH as [IHr IHb]; [lia | lia | lia | lia |].
    split; [|exact IHb].
    rewrite IHr. cbn [seq map app]. rewrite map_full_report_shift.
    f_equal.
    + unfold full_report. f_equal. lia.
    + do 3 f_equal. lia.
Qed.

Lemma closed_form_bounds (T W : N) :
  0 < T -> 0 < W ->
  N.of_nat (full_steps T W) * W < T
  /\ T <= (N.of_nat (full_steps T W) + 1) * W
  /\ T - N.of_nat (full_steps T W) * W = final_chunk T W.
Proof.
  intros HT HW. unfold full_steps, final_chunk.
  pose proof (N.div_mod T W ltac:(lia)) as Hdm.
  pose proof (N.mod_lt T W ltac:(lia)) as Hlt.
  rewrite N2Nat.id.
  destruct (N.eqb_spec (T mod W) 0) as [Hz | Hnz].
  - assert (Hq : exists p, T / W = p + 1).
    { exists (T / W - 1). assert (0 < T / W) by nia. lia. }
    destruct Hq as [p Hp]. rewrite Hp in *.
    replace (p + 1 - 1) with p by lia. nia.
  - rewrite (N.mul_comm W) in Hdm.
    replace ((T / W + 1) * W) with (T / W * W + W) by lia.
    remember (T / W * W) as m eqn:Hm. remember (T mod W) as r eqn:Hr.
    clear Hm Hr. lia.
Qed.

Lemma reports_closed_form x sp (fuel : nat) :
  fresh x ->
  (full_steps (totalLength x) (windowSize x) < fuel)%nat ->
  reports fuel x sp = expected_reports (totalLength x) (windowSize x)
  /\ bytesTransferred (final_state fuel x sp) = totalLength x.
Proof.
  intros (Hb & HT & HW) Hfuel.
  destruct (closed_form_bounds _ _ HT HW) as (Hlo & Hhi & Hfin).
  destruct (run_from (full_steps (totalLength x) (windowSize x)) 0 x sp fuel)
    as [Hr Hf]; [lia | lia | lia | exact Hfuel |].
  split; [|exact Hf].
  rewrite Hr. unfold expected_reports. do 3 f_equal. lia.
Qed.

Lemma sum_chunks_app (r1 r2 : list StepReport) :
  sum_chunks (r1 ++ r2) = sum_chunks r1 + sum_chunks r2.
Proof. induction r1 as [|r r1 IH]; simpl; [reflexivity | rewrite IH; lia]. Qed.

Lemma sum_chunks_full (W j : N) (l : list nat) :
  sum_chunks (map (full_report W j) l) = N.of_nat (length l) * W.
Proof.
  induction l as [|i l IH]; [reflexivity|].
  cbn [map sum_chunks fold_right length]. fold (sum_chunks (map (full_report W j) l)).
  rewrite IH. simpl chunkLength. lia.
Qed.

(** C2. For a transfer with a positive length and a positive window,
    stepped until a step reports completion (which happens within
    [full_steps + 1] calls), the chunk lengths of the steps add up to
    [totalLength] and the transfer ends with [bytesTransferred] equal to
    it; and after any number of [step()] calls the counter is at least
    what it was one call earlier and at most [totalLength]. *)
Theorem chunks_sum_to_total_and_counter_bounded x sp (fuel : nat) :
  fresh x ->
  (full_steps (totalLength x) (windowSize x) < fuel)%nat ->
  sum_chunks (reports fuel x sp) = totalLength x
  /\ bytesTransferred (final_state fuel x sp) = totalLength x
  /\ forall n : nat,
       bytesTransferred (fst (step_n n x sp))
       <= bytesTransferred (fst (step_n (S n) x sp))
       /\ bytesTransferred (fst (step_n (S n) x sp)) <= totalLength x.
Proof.
  intros Hfresh Hfuel.
  destruct (reports_closed_form x sp fuel Hfresh Hfuel) as [Hr Hf].
  destruct Hfresh as (Hb & HT & HW).
  split; [|split; [exact Hf|]].
  - rewrite Hr. unfold expected_reports.
    rewrite sum_chunks_app, sum_chunks_full, length_seq. simpl.
    destruct (closed_form_bounds _ _ HT HW) as (Hlo & Hhi & Hfin). lia.
  - intros n.
    assert (Hle : bytesTransferred x <= totalLength x) by lia.
    pose proof (step_n_invariant n x sp Hle) as (HTn & _ & _ & Hn).
    rewrite step_n_succ.
    pose proof (step_invariant (fst (step_n n x sp)) (snd (step_n n x sp)) Hn)
      as (HT' & _ & Hmono & Hle').
    rewrite <- HTn, <- HT'. split; assumption.
Qed.

(** The reports of a run in closed form: [full_steps] reports of one
    whole window without completion, then one report of the final
    chunk, the only one with the completion flag. *)
Lemma reports_of_a_run x sp (fuel : nat) :
  fresh x ->
  (full_steps (totalLength x) (windowSize x) < fuel)%nat ->
  let T := totalLength x in
  let W := windowSize x in
  let rs := reports fuel x sp in
  (forall (y : KeyholeTransferState Space) (sq : Space),
     chunkLength (fst (fst (step y sq)))
     = N.min (windowSize y) (totalLength y - bytesTransferred y))
  /\ rs = expected_reports T W
  /\ last rs = Some (mkReport (if T mod W =? 0 then W else T mod W) T true)
  /\ length rs = S (full_steps T W)
  /\ (forall (i : nat) (r : StepReport), rs !! i = Some r ->
        (complete r = true <-> i = full_steps T W)
        /\ (complete r = true <-> cumulative r = T)
        /\ (i < full_steps T W -> chunkLength r = W)%nat)
  /\ (T = 1000 -> W = 256 ->
      map chunkLength rs = [256; 256; 256; 232]
      /\ map cumulative rs = [256; 512; 768; 1000]
      /\ map complete rs = [false; false; false; true]).
Proof.
  intros Hfresh Hfuel T W rs.
  destruct (reports_closed_form x sp fuel Hfresh Hfuel) as [Hr _].
  fold T W rs in Hr.
  destruct Hfresh as (Hb & HT & HW). fold T in HT. fold W in HW.
  destruct (closed_form_bounds _ _ HT HW) as (Hlo & Hhi & Hfin).
  split; [reflexivity|]. split; [exact Hr|].
  rewrite Hr. unfold expected_reports.
  split; [apply last_snoc|].
  split; [rewrite length_app, length_map, length_seq; simpl; lia|].
  split.
  - intros i r Hi.
    destruct (Nat.lt_ge_cases i (full_steps T W)) as [Hlt | Hge].
    + rewrite lookup_app_l in Hi by (rewrite length_map, length_seq; lia).
      rewrite list_lookup_fmap, lookup_seq_lt in Hi by lia.
      injection Hi as <-. unfold full_report. simpl.
      split; [split; [discriminate | lia]|].
      split; [split; [discriminate | nia] | done].
    + rewrite lookup_app_r in Hi by (rewrite length_map, length_seq; lia).
      rewrite length_map, length_seq in Hi.
      destruct (i - full_steps T W)%nat as [|d] eqn:Hd; [|discriminate].
      injection Hi as <-. simpl.
      split; [split; [lia | done]|]. split; [done | lia].
  - intros -> ->. vm_compute. done.
Qed.

(** The calls of the move function, in call order, as triples of
    source, destination and length; and their effect on the spaces. *)
Definition apply_moves (moveFn : N -> N -> N -> Space -> Space)
  (moves : list (N * N * N)) (sp : Space) : Space :=
  fold_left (fun s '(src, dst, len) => moveFn src dst len s) moves sp.

(** [k] moves of a whole window [W] from cursors [src] and [dst], the
    source advancing by [W] each time and the destination too unless it
    is a fixed keyhole, then one move of [last] bytes. *)
Definition moves_from (src dst : N) (fixed : bool) (W : N) (k : nat)
  (last : N) : list (N * N * N) :=
  map (fun i => (src + N.of_nat i * W,
                 if fixed then dst else dst + N.of_nat i * W, W))
      (seq 0 k)
  ++ [(src + N.of_nat k * W,
       if fixed then dst else dst + N.of_nat k * W, last)].

Definition expected_moves x : list (N * N * N) :=
  moves_from (sourceAddress x) (destinationAddress x) (fixedDestination x)
    (windowSize x) (full_steps (totalLength x) (windowSize x))
    (final_chunk (totalLength x) (windowSize x)).

Ltac triple_eq :=
  apply (f_equal2 pair); [apply (f_equal2 pair)|]; try reflexivity; lia.

Lemma moves_from_succ (src dst : N) (fixed : bool) (W : N) (k : nat)
  (last : N) :
  moves_from src dst fixed W (S k) last
  = (src, dst, W)
    :: moves_from (src + W) (if fixed then dst else dst + W) fixed W k last.
Proof.
  unfold moves_from. cbn [seq map app]. f_equal.
  - destruct fixed; triple_eq.
  - f_equal.
    + rewrite <- seq_shift, map_map. apply map_ext. intros i.
      destruct fixed; triple_eq.
    + f_equal. destruct fixed; triple_eq.
Qed.

(** What the run of lemma [run_from] does to the spaces and to the
    cursors. *)
Lemma run_moves (k : nat) :
  forall (j : N) x sp (fuel : nat),
    bytesTransferred x = j * windowSize x ->
    (j + N.of_nat k) * windowSize x < totalLength x ->
    totalLength x <= (j + N.of_nat k + 1) * windowSize x ->
    (k < fuel)%nat ->
    snd (run_transfer fuel x sp)
    = apply_moves (transferFunction x)
        (moves_from (sourceAddress x) (destinationAddress x)
           (fixedDestination x) (windowSize x) k
           (totalLength x - (j + N.of_nat k) * windowSize x)) sp
    /\ sourceAddress (final_state fuel x sp)
       = sourceAddress x + (totalLength x - j * windowSize x)
    /\ destinationAddress (final_state fuel x sp)
       = (if fixedDestination x then destinationAddress x
          else destinationAddress x + (totalLength x - j * windowSize x)).
Proof.
  unfold final_state.
  induction k as [|k IH]; intros j x sp fuel Hb Hlo Hhi Hfuel;
    (destruct fuel as [|fuel]; [lia|]);
    cbn [run_transfer step complete].
  - assert (Hmin : N.min (windowSize x) (totalLength x - bytesTransferred x)
                   = totalLength x - j * windowSize x) by lia.
    rewrite Hmin, Hb.
    assert (Hsum : j * windowSize x + (totalLength x - j * windowSize x)
                   = totalLength x) by lia.
    rewrite Hsum, N.eqb_refl. cbn [fst snd sourceAddress destinationAddress].
    unfold moves_from, apply_moves. cbn [seq map app fold_left].
    split; [|done].
    f_equal; try destruct (fixedDestination x); lia.
  - assert (Hmin : N.min (windowSize x) (totalLength x - bytesTransferred x)
                   = windowSize x) by lia.
    rewrite Hmin, Hb.
    destruct (N.eqb_spec (j * windowSize x + windowSize x) (totalLength x))
      as [Heq | Hne]; [lia|].
    match goal with |- context [run_transfer fuel ?y ?s] =>
      specialize (IH (j + 1) y s fuel);
      destruct (run_transfer fuel y s) as [[rs x''] sp''] end.
    cbn [fst snd totalLength windowSize bytesTransferred sourceAddress
         destinationAddress fixedDestination transferFunction] in IH |- *.
    destruct IH as (IHs & IHsrc & IHdst); [lia | lia | lia | lia |].
    rewrite moves_from_succ. unfold apply_moves at 1. cbn [fold_left].
    fold (apply_moves (transferFunction x)).
    split; [|split].
    + rewrite IHs. do 2 f_equal. lia.
    + rewrite IHsrc. lia.
    + rewrite IHdst. destruct (fixedDestination x); lia.
Qed.

(** C5. Each step hands the move function the current cursors and
    [min (windowSize, totalLength - bytesTransferred)] as length, and
    advances the counter and the source cursor by that length.  For a
    transfer with a positive length and a positive window the run is
    [full_steps] steps that move one whole window each, none of which
    reports completion, followed by one step that moves
    [totalLength mod windowSize] bytes when that remainder is not zero
    and [windowSize] bytes otherwise, brings the counter to
    [totalLength] and is the only one to report completion; the spaces
    end as those moves, in that order, leave them, the source cursor
    [totalLength] further, the destination cursor too unless it is a
    fixed keyhole.  For length 1000 and window 256 the chunks are 256,
    256, 256, 232 and the counter goes 256, 512, 768, 1000. *)
Theorem final_chunk_and_completion_flag x sp (fuel : nat) :
  fresh x ->
  (full_steps (totalLength x) (windowSize x) < fuel)%nat ->
  let T := totalLength x in
  let W := windowSize x in
  let rs := reports fuel x sp in
  (forall (y : KeyholeTransferState Space) (sq : Space),
     let c := N.min (windowSize y) (totalLength y - bytesTransferred y) in
     chunkLength (fst (fst (step y sq))) = c
     /\ snd (step y sq)
        = transferFunction y (sourceAddress y) (destinationAddress y) c sq
     /\ bytesTransferred (snd (fst (step y sq))) = bytesTransferred y + c
     /\ sourceAddress (snd (fst (step y sq))) = sourceAddress y + c
     /\ destinationAddress (snd (fst (step y sq)))
        = (if fixedDestination y then destinationAddress y
           else destinationAddress y + c))
  /\ rs = expected_reports T W
  /\ last rs = Some (mkReport (if T mod W =? 0 then W else T mod W) T true)
  /\ length rs = S (full_steps T W)
  /\ (forall (i : nat) (r : StepReport), rs !! i = Some r ->
        (complete r = true <-> i = full_steps T W)
        /\ (complete r = true <-> cumulative r = T)
        /\ (i < full_steps T W -> chunkLength r = W)%nat)
  /\ (T = 1000 -> W = 256 ->
      map chunkLength rs = [256; 256; 256; 232]
      /\ map cumulative rs = [256; 512; 768; 1000]
      /\ map complete rs = [false; false; false; true])
  /\ snd (run_transfer fuel x sp)
     = apply_moves (transferFunction x) (expected_moves x) sp
  /\ map (fun m => snd m) (expected_moves x) = map chunkLength rs
  /\ bytesTransferred (final_state fuel x sp) = T
  /\ sourceAddress (final_state fuel x sp) = sourceAddress x + T
  /\ destinationAddress (final_state fuel x sp)
     = (if fixedDestination x then destinationAddress x
        else destinationAddress x + T).
Proof.
  intros Hfresh Hfuel T W rs.
  destruct (reports_of_a_run x sp fuel Hfresh Hfuel)
    as (_ & Hr & Hlast & Hlen & Hflags & Hscen).
  destruct (reports_closed_form x sp fuel Hfresh Hfuel) as [_ Hbt].
  destruct Hfresh as (Hb & HT & HW).
  destruct (closed_form_bounds _ _ HT HW) as (Hlo & Hhi & Hfin).
  destruct (run_moves (full_steps (totalLength x) (windowSize x)) 0 x sp fuel)
    as (Hsp & Hsrc & Hdst); [lia | lia | lia | exact Hfuel |].
  split; [intros y sq; cbv zeta; repeat split|].
  split; [exact Hr|]. split; [exact Hlast|]. split; [exact Hlen|].
  split; [exact Hflags|]. split; [exact Hscen|].
  split; [|split; [|split; [exact Hbt|]]].
  - rewrite Hsp. unfold expected_moves. do 2 f_equal.
    rewrite <- Hfin; f_equal; lia.
  - fold rs in Hr. rewrite Hr. unfold expected_moves, moves_from,
      expected_reports.
    rewrite !map_app, !map_map. simpl. f_equal.
  - split.
    + rewrite Hsrc. fold T. lia.
    + rewrite Hdst. fold T. destruct (fixedDestination x); lia.
Qed.

End Steps.

Lemma chunks_sum_to_total_and_counter_bounded_witness :
  let x := mkXfr (list (N * N * N)) 0x10000 0xF1000000 1000 256 0 true
             log_move in
  fresh x
  /\ (full_steps 1000 256 < 4)%nat
  /\ sum_chunks (reports 4 x []) = 1000
  /\ bytesTransferred (fst (step_n 2 x [])) <= 1000.
Proof.
  intros x.
  assert (Hfresh : fresh x) by (vm_compute; done).
  assert (Hfuel : (full_steps (totalLength x) (windowSize x) < 4)%nat)
    by (vm_compute; lia).
  split; [exact Hfresh|]. split; [exact Hfuel|].
  destruct (chunks_sum_to_total_and_counter_bounded x [] 4 Hfresh Hfuel)
    as (Hsum & _ & Hstep).
  split; [exact Hsum|]. apply (Hstep 1%nat).
Defined.

Lemma final_chunk_and_completion_flag_witness :
  let x := mkXfr (list (N * N * N)) 0x10000 0xF1000000 1000 256 0 true
             log_move in
  fresh x
  /\ (full_steps 1000 256 < 7)%nat
  /\ last (reports 7 x []) = Some (mkReport 232 1000 true)
  /\ map chunkLength (reports 7 x []) = [256; 256; 256; 232]
  /\ snd (run_transfer 7 x [])
     = [(0x10000, 0xF1000000, 256); (0x10100, 0xF1000000, 256);
        (0x10200, 0xF1000000, 256); (0x10300, 0xF1000000, 232)]
  /\ sourceAddress (final_state 7 x []) = 0x10000 + 1000.
Proof.
  intros x.
  assert (Hfresh : fresh x) by (vm_compute; done).
  assert (Hfuel : (full_steps (totalLength x) (windowSize x) < 7)%nat)
    by (vm_compute; lia).
  split; [exact Hfresh|]. split; [exact Hfuel|].
  destruct (final_chunk_and_completion_flag x [] 7 Hfresh Hfuel)
    as (_ & _ & Hlast & _ & _ & Hscen & Hsp & _ & _ & Hsrc & _).
  split; [exact Hlast|]. split; [apply Hscen; reflexivity|].
  split; [exact Hsp | exact Hsrc].
Defined.

End KeyholeProofs.

(** ** Part V: the rest of xpsmfw_iomodule.c *)

(** *** XPsmFw_IoModuleInit *)

Module IoModuleInit.

Import IoModule.
Local Open Scope string_scope.
Local Open Scope Z_scope.

(** The two further entry points of the IO-module driver that
    initialisation uses. *)
Class InitDriver (P : Platform) := {
  XIOModule_Initialize : Z -> XIOModule * HW -> Z * (XIOModule * HW);
  XIOModule_SelfTest : XIOModule * HW -> Z * (XIOModule * HW);
}.

Section Init.

Context {P : Platform} {D : InitDriver P}.

Definition IOModule_Initialize (DeviceId : Z) : M Z := fun w =>
  let '(st, (io, h')) := XIOModule_Initialize DeviceId (IOModule w, hw w) in
  (st, mkWorld h' io (ExcTable w) (trace w)).

Definition IOModule_SelfTest : M Z := fun w =>
  let '(st, (io, h')) := XIOModule_SelfTest (IOModule w, hw w) in
  (st, mkWorld h' io (ExcTable w) (trace w)).

Definition XPsmFw_IoModuleInit (fuel : nat) (DeviceId : Z) (w : World)
  : outcome Z :=
  (* Initialize the IO Module so that it's ready to use *)
  let (Status, w1) := IOModule_Initialize DeviceId w in
  if negb (Status =? XST_SUCCESS) then
    Returned Status
      (exec (XPsmFw_Printf DEBUG_ERROR "IO Module: Init failed\r\n" []) w1)
  else
    let (Status, w2) := IOModule_SelfTest w1 in
    if negb (Status =? XST_SUCCESS) then
      Returned Status
        (exec (XPsmFw_Printf DEBUG_ERROR "IO Module: Self test failed\r\n" [])
           w2)
    else
      match SetUpInterruptSystem fuel w2 with
      | Running w3 => Running w3
      | Returned Status w3 =>
          if negb (Status =? XST_SUCCESS) then
            Returned Status
              (exec (XPsmFw_Printf DEBUG_ERROR
                       "IO Module: Connecting intr handler to IO Module failed\r\n"
                       []) w3)
          else
            Returned Status
              (exec (XPsmFw_Printf DEBUG_DETAILED
                       "IO Module init completed\r\n" []) w3)
      end.

End Init.

End IoModuleInit.

(** *** Further properties of the interrupt router *)

Module IoModuleExtras.

Import IoModule IoModuleProofs IoModuleInit.
Local Open Scope Z_scope.

Section Locality.

Context {P : Platform}.

(** A computation is [local] when the trace it is started with plays no
    part in what it does: it behaves as from an empty trace and appends
    what it emitted. *)
Definition local {A} (m : M A) : Prop :=
  forall w : World,
    m w = (fst (m (set_trace [] w)),
           set_trace (trace w ++ trace (exec m (set_trace [] w)))
             (exec m (set_trace [] w))).

Lemma set_trace_twice (t t' : list event) (w : World) :
  set_trace t (set_trace t' w) = set_trace t w.
Proof. reflexivity. Qed.

Lemma set_trace_emit (t : list event) (e : event) (w : World) :
  set_trace t (emit e w) = set_trace t w.
Proof. reflexivity. Qed.

Lemma local_exec {A} (m : M A) (Hm : local m) (w : World) :
  exec m w
  = set_trace (trace w ++ trace (exec m (set_trace [] w)))
      (exec m (set_trace [] w)).
Proof. unfold exec at 1. rewrite (Hm w). reflexivity. Qed.

Lemma local_ret {A} (a : A) : local (ret a).
Proof.
  intros w. unfold ret, exec. simpl. rewrite app_nil_r. by destruct w.
Qed.

Lemma local_bind {A B} (m : M A) (k : A -> M B) :
  local m -> (forall a, local (k a)) -> local (bind m k).
Proof.
  intros Hm Hk w. unfold bind, exec.
  rewrite (Hm w).
  destruct (m (set_trace [] w)) as [a w1] eqn:E1. unfold exec. rewrite E1.
  cbn [fst snd].
  rewrite (Hk a (set_trace (trace w ++ trace w1) w1)), set_trace_twice.
  rewrite (Hk a w1).
  destruct (k a (set_trace [] w1)) as [b w2] eqn:E2. unfold exec. rewrite E2.
  cbn [fst snd]. rewrite set_trace_twice. simpl. by rewrite app_assoc.
Qed.

Lemma local_Read32 (a : Z) : local (XPsmFw_Read32 a).
Proof.
  intros w. unfold XPsmFw_Read32, exec. simpl.
  destruct (mmio_read a (hw w)); reflexivity.
Qed.

Lemma local_Write32 (a v : Z) : local (XPsmFw_Write32 a v).
Proof. intros w. reflexivity. Qed.

Lemma local_Printf t f args : local (XPsmFw_Printf t f args).
Proof. intros w. reflexivity. Qed.

Lemma local_call_Handler (h : irq_fn) : local (call_Handler h).
Proof. intros w. reflexivity. Qed.

Lemma local_body (irq : Z) (e : HandlerTable) :
  local (IntrHandler_body irq e).
Proof.
  unfold IntrHandler_body.
  destruct (Z.land irq (Mask e) =? Mask e); [|apply local_ret].
  apply local_bind; [|intros _; apply local_Write32].
  destruct (Handler e); [apply local_call_Handler | apply local_ret].
Qed.

Lemma local_loop (tbl : list HandlerTable) (irq : Z) :
  local (IntrHandler_loop tbl irq).
Proof.
  induction tbl as [|e tbl IH]; simpl; [apply local_ret|].
  apply local_bind; [apply local_body | intros _; exact IH].
Qed.

(** What a dispatch call does after its debug print. *)
Definition read_and_serve : M unit :=
  bind (XPsmFw_Read32 PSM_IOMODULE_IRQ_PENDING)
       (fun l_IrqReg => IntrHandler_loop g_TopLevelInterruptTable l_IrqReg).

Lemma local_read_and_serve : local read_and_serve.
Proof.
  apply local_bind; [apply local_Read32 | intros irq; apply local_loop].
Qed.

Definition intr_print (IntrNumber : Z) : event :=
  EvPrintf DEBUG_DETAILED "Interrupt number = 0x%x\r\n"%string
    [ArgX IntrNumber].

Lemma IntrHandler_after_print (IntrNumber : Z) (w : World) :
  exec (XPsmFw_IntrHandler IntrNumber) w
  = exec read_and_serve (emit (intr_print IntrNumber) w).
Proof. unfold XPsmFw_IntrHandler. rewrite exec_bind. reflexivity. Qed.

(** X1. The dispatcher uses its argument for the debug print only:
    called with two different interrupt numbers from the same world, it
    leaves the same hardware, driver and vector-table state, and the two
    traces differ in nothing but the number shown by that first print. *)
Theorem dispatch_ignores_interrupt_number (n1 n2 : Z) (w : World) :
  hw (exec (XPsmFw_IntrHandler n1) w) = hw (exec (XPsmFw_IntrHandler n2) w)
  /\ IOModule (exec (XPsmFw_IntrHandler n1) w)
     = IOModule (exec (XPsmFw_IntrHandler n2) w)
  /\ ExcTable (exec (XPsmFw_IntrHandler n1) w)
     = ExcTable (exec (XPsmFw_IntrHandler n2) w)
  /\ exists rest,
       trace (exec (XPsmFw_IntrHandler n1) w)
       = trace w ++ intr_print n1 :: rest
       /\ trace (exec (XPsmFw_IntrHandler n2) w)
          = trace w ++ intr_print n2 :: rest.
Proof.
  rewrite !IntrHandler_after_print.
  rewrite (local_exec _ local_read_and_serve (emit (intr_print n1) w)).
  rewrite (local_exec _ local_read_and_serve (emit (intr_print n2) w)).
  rewrite !set_trace_emit.
  split; [reflexivity|]. split; [reflexivity|]. split; [reflexivity|].
  exists (trace (exec read_and_serve (set_trace [] w))).
  simpl. by rewrite <- !app_assoc.
Qed.

End Locality.

Section Handlers.

Context {P : Platform}.

(** Registers read by each second-level handler, in reading order. *)
Definition handler_regs (h : irq_fn) : list Z :=
  match h with
  | XPsmFw_InterruptIpiHandler_p => [IPI_PSM_ISR]
  | XPsmfw_InterruptPwrUpHandler_p =>
      [PSM_GLOBAL_REG_REQ_PWRUP_STATUS; PSM_GLOBAL_REG_REQ_PWRUP_INT_MASK]
  | XPsmfw_InterruptPwrDwnHandler_p =>
      [PSM_GLOBAL_REG_REQ_PWRDWN_STATUS; PSM_GLOBAL_REG_REQ_PWRDWN_INT_MASK;
       PSM_GLOBAL_REG_REQ_PWRUP_STATUS; PSM_GLOBAL_REG_REQ_PWRUP_INT_MASK]
  | XPsmfw_InterruptWakeupHandler_p =>
      [PSM_GLOBAL_REG_WAKEUP_IRQ_STATUS; PSM_GLOBAL_REG_WAKEUP_IRQ_MASK]
  | XPsmfw_InterruptPwrCtlHandler_p =>
      [PSM_GLOBAL_REG_PWR_CTRL_IRQ_STATUS; PSM_GLOBAL_REG_PWR_CTRL_IRQ_MASK]
  | XPsmfw_InterruptGicP2Handler_p =>
      [PSM_GLOBAL_GICP2_IRQ_STATUS; PSM_GLOBAL_GICP2_IRQ_MASK]
  end.

Definition handler_dispatcher (h : irq_fn) : extern_fn :=
  match h with
  | XPsmFw_InterruptIpiHandler_p => XPsmFw_DispatchIpiHandler
  | XPsmfw_InterruptPwrUpHandler_p => XPsmFw_DispatchPwrUpHandler
  | XPsmfw_InterruptPwrDwnHandler_p => XPsmFw_DispatchPwrDwnHandler
  | XPsmfw_InterruptWakeupHandler_p => XPsmFw_DispatchWakeupHandler
  | XPsmfw_InterruptPwrCtlHandler_p => XPsmFw_DispatchPwrCtlHandler
  | XPsmfw_InterruptGicP2Handler_p => XPsmFw_DispatchGicP2Handler
  end.

Definition handler_error (h : irq_fn) : string :=
  match h with
  | XPsmFw_InterruptIpiHandler_p => "Error in handling IPI interrupt\r\n"
  | XPsmfw_InterruptPwrUpHandler_p =>
      "Error in handling Power up interrupt\r\n"
  | XPsmfw_InterruptPwrDwnHandler_p =>
      "Error in handling Power down interrupt\r\n"
  | XPsmfw_InterruptWakeupHandler_p => "Error in handling wakeup interrupt\r\n"
  | XPsmfw_InterruptPwrCtlHandler_p =>
      "Error in handling power control interrupt\r\n"
  | XPsmfw_InterruptGicP2Handler_p => "Error in handling GIC interrupt\r\n"
  end%string.

Ltac handler_trace :=
  repeat first
    [ rewrite exec_ret | rewrite exec_bind | rewrite trace_Printf
    | rewrite trace_Write32 | rewrite trace_extern | rewrite trace_Read32 ].

(** X2. Each of the power-up, power-down, wake-up, power-control and
    GIC handlers reads its status and mask registers once each in a
    fixed order, hands exactly the values it read, in that order, to its
    dispatcher, writes no register itself, and prints its error message
    exactly when the dispatcher's status differs from XST_SUCCESS. *)
Theorem second_level_handler_forwards_reads (h : irq_fn) (w : World) :
  h <> XPsmFw_InterruptIpiHandler_p ->
  exists (vals : list Z) (st : Z),
    length vals = length (handler_regs h)
    /\ trace (exec (irq_fn_code h) w)
       = trace w
         ++ zip_with EvRead32 (handler_regs h) vals
         ++ [EvExtern (handler_dispatcher h) vals st]
         ++ (if XST_SUCCESS =? st then []
             else [EvPrintf DEBUG_ERROR (handler_error h) []]).
Proof.
  intros Hh.
  destruct h; [congruence | | | | |];
    cbn [irq_fn_code handler_regs handler_dispatcher handler_error];
    unfold XPsmfw_InterruptPwrUpHandler, XPsmfw_InterruptPwrDwnHandler,
      XPsmfw_InterruptWakeupHandler, XPsmfw_InterruptPwrCtlHandler,
      XPsmfw_InterruptGicP2Handler;
    rewrite !exec_bind;
    match goal with
    | |- context [XST_SUCCESS =? fst (extern ?f ?args ?w0)] =>
        exists args, (fst (extern f args w0));
        split; [reflexivity|];
        destruct (XST_SUCCESS =? fst (extern f args w0)); simpl negb; cbv iota;
        handler_trace; cbn [zip_with]; by rewrite <- ?app_assoc
    end.
Qed.

(** X3. An IPI whose status shows the PMC bit is handed to
    XPsmFw_DispatchIpiHandler, once, with exactly the PMC mask, before
    the status is written back, and the handler reports an error exactly
    when the dispatcher's status is not XST_SUCCESS.  In a build without
    the IPI channel the same IPI is only reported as not enabled and
    cleared, the handler's status staying at XST_FAILURE. *)
Theorem ipi_from_pmc_is_dispatched (w : World) :
  let Mask := fst (XPsmFw_Read32 IPI_PSM_ISR w) in
  IPI_PSM_ISR_PMC_MASK = Z.land IPI_PSM_ISR_PMC_MASK Mask ->
  if XPAR_XIPIPSU_0_DEVICE_ID_defined then
    exists st,
      trace (exec XPsmFw_InterruptIpiHandler w)
      = trace w
        ++ [EvRead32 IPI_PSM_ISR Mask;
            EvExtern XPsmFw_DispatchIpiHandler [IPI_PSM_ISR_PMC_MASK] st;
            EvWrite32 IPI_PSM_ISR Mask]
        ++ (if XST_SUCCESS =? st then [] else [ipi_error_msg])
  else
    trace (exec XPsmFw_InterruptIpiHandler w)
    = trace w
      ++ [EvRead32 IPI_PSM_ISR Mask;
          EvPrintf DEBUG_ERROR "PSM IPI channel is not enabled\r\n"%string [];
          EvWrite32 IPI_PSM_ISR Mask]
      ++ (if XST_SUCCESS =? XST_FAILURE then [] else [ipi_error_msg]).
Proof.
  intros Mask Hpmc. unfold XPsmFw_InterruptIpiHandler.
  rewrite exec_bind. fold Mask.
  destruct (Z.eqb_spec IPI_PSM_ISR_PMC_MASK (Z.land IPI_PSM_ISR_PMC_MASK Mask))
    as [_ | Hne]; [|done]. simpl negb. cbv iota.
  destruct XPAR_XIPIPSU_0_DEVICE_ID_defined.
  - rewrite exec_bind.
    match goal with
    | |- context [fst (extern ?f ?args ?w0)] => exists (fst (extern f args w0));
        destruct (XST_SUCCESS =? fst (extern f args w0)) end;
      simpl negb; cbv iota; handler_trace; fold Mask;
      rewrite <- ?app_assoc, ?app_nil_r; reflexivity.
  - rewrite !exec_bind. simpl fst.
    destruct (XST_SUCCESS =? XST_FAILURE); simpl negb; cbv iota;
      handler_trace; fold Mask; rewrite <- ?app_assoc, ?app_nil_r; reflexivity.
Qed.

(** *** The matching rule of the dispatcher *)

Lemma land_covers (p p' m : Z) :
  Z.land p p' = p -> Z.land p m = m -> Z.land p' m = m.
Proof.
  intros Hp Hm.
  rewrite <- Hm at 1. rewrite Z.land_assoc, (Z.land_comm p' p), Hp. exact Hm.
Qed.

Lemma entry_pending_mono (irq irq' : Z) (e : HandlerTable) :
  Z.land irq irq' = irq ->
  entry_pending irq e = true -> entry_pending irq' e = true.
Proof.
  unfold entry_pending. intros Hsub Hp.
  apply Z.eqb_eq in Hp. apply Z.eqb_eq. by apply (land_covers irq).
Qed.

Lemma pending_masks_mono (irq irq' : Z) (tbl : list HandlerTable) :
  Z.land irq irq' = irq ->
  sublist (pending_masks irq tbl) (pending_masks irq' tbl).
Proof.
  intros Hsub. unfold pending_masks.
  induction tbl as [|e tbl IH]; simpl; [constructor|].
  destruct (entry_pending irq e) eqn:E.
  - rewrite (entry_pending_mono irq irq' e Hsub E). simpl.
    by apply sublist_skip.
  - destruct (entry_pending irq' e); simpl; [by apply sublist_cons | exact IH].
Qed.

Lemma loop_none_pending (tbl : list HandlerTable) (irq : Z) (w : World) :
  (forall e, In e tbl -> entry_pending irq e = false) ->
  exec (IntrHandler_loop tbl irq) w = w.
Proof.
  revert w. induction tbl as [|e tbl IH]; intros w Hnone; simpl;
    [reflexivity|].
  rewrite exec_bind, IH by (intros e' He'; apply Hnone; by right).
  unfold IntrHandler_body.
  pose proof (Hnone e ltac:(by left)) as He. unfold entry_pending in He.
  rewrite He. reflexivity.
Qed.

(** X5. When the pending register reads 0 and no table mask is 0, a
    dispatch call does nothing beyond its debug print and that one read:
    no handler is called and nothing is written to the acknowledge
    register, the world being the one reached right after the read. *)
Theorem dispatch_with_nothing_pending (IntrNumber : Z) (w : World) :
  pending_read IntrNumber w = 0 ->
  (forall e, In e g_TopLevelInterruptTable -> Mask e <> 0) ->
  exec (XPsmFw_IntrHandler IntrNumber) w
  = exec (XPsmFw_Read32 PSM_IOMODULE_IRQ_PENDING)
      (exec (XPsmFw_Printf DEBUG_DETAILED "Interrupt number = 0x%x\r\n"%string
               [ArgX IntrNumber]) w)
  /\ trace (exec (XPsmFw_IntrHandler IntrNumber) w)
     = trace w ++ [intr_print IntrNumber;
                   EvRead32 PSM_IOMODULE_IRQ_PENDING 0].
Proof.
  intros Hzero Hmasks.
  assert (Hexec : exec (XPsmFw_IntrHandler IntrNumber) w
    = exec (XPsmFw_Read32 PSM_IOMODULE_IRQ_PENDING)
        (exec (XPsmFw_Printf DEBUG_DETAILED
                 "Interrupt number = 0x%x\r\n"%string [ArgX IntrNumber]) w)).
  { rewrite IntrHandler_unfold, Hzero. apply loop_none_pending.
    intros e He. unfold entry_pending. rewrite Z.land_0_l.
    apply Z.eqb_neq. intros Heq. by apply (Hmasks e He). }
  split; [exact Hexec|].
  rewrite Hexec, trace_Read32, trace_Printf.
  fold (pending_read IntrNumber w). rewrite Hzero.
  by rewrite <- app_assoc.
Qed.

End Handlers.

Section SetUp.

Context {P : Platform}.

(** The connect contract of the driver, and a start that changes no
    binding. *)
Record SetupLaws : Prop := {
  setup_driver : DriverLaws;
  start_keeps : forall s j,
    XIOModule_binding (fst (snd (XIOModule_Start s))) j
    = XIOModule_binding (fst s) j;
}.

Lemma IOModule_after_Connect Id h cb (w : World) :
  IOModule (exec (IOModule_Connect Id h cb) w)
  = fst (snd (XIOModule_Connect Id h cb (IOModule w, hw w))).
Proof.
  unfold exec, IOModule_Connect.
  destruct (XIOModule_Connect Id h cb (IOModule w, hw w)) as [st [io h']].
  reflexivity.
Qed.

Lemma IOModule_after_Enable Id (w : World) :
  IOModule (exec (IOModule_Enable Id) w)
  = fst (XIOModule_Enable Id (IOModule w, hw w)).
Proof.
  unfold exec, IOModule_Enable.
  destruct (XIOModule_Enable Id (IOModule w, hw w)) as [io h'].
  reflexivity.
Qed.

Lemma IOModule_after_Start (w : World) :
  IOModule (exec IOModule_Start w)
  = fst (snd (XIOModule_Start (IOModule w, hw w))).
Proof.
  unfold exec, IOModule_Start.
  destruct (XIOModule_Start (IOModule w, hw w)) as [st [io h']].
  reflexivity.
Qed.

Lemma u8_small (z : Z) : 0 <= z < 256 -> u8 z = z.
Proof. intros H. unfold u8. apply Z.mod_small. lia. Qed.

(** Bindings after the connect loop: the shifts of the table are bound
    to the dispatcher with the shift as callback reference, every other
    id is as before. *)
Lemma SetUp_loop_bindings (L : DriverLaws) (tbl : list HandlerTable) :
  XPAR_IOMODULE_INTC_MAX_INTR_SIZE <= 256 ->
  (forall e, In e tbl -> 0 <= Shift e < XPAR_IOMODULE_INTC_MAX_INTR_SIZE) ->
  forall (w : World) (j : Z),
    XIOModule_binding (IOModule (exec (SetUp_loop tbl) w)) j
    = if in_dec Z.eq_dec j (map Shift tbl)
      then Some (XPsmFw_IntrHandler_p, j)
      else XIOModule_binding (IOModule w) j.
Proof.
  intros Hmax. induction tbl as [|e tbl IH]; intros Hin w j.
  - reflexivity.
  - assert (He : 0 <= Shift e < XPAR_IOMODULE_INTC_MAX_INTR_SIZE)
      by (apply Hin; by left).
    cbn [SetUp_loop]. rewrite !exec_bind.
    rewrite IH by (intros e' He'; apply Hin; by right).
    rewrite u8_small by lia.
    assert (Hstep : forall w0 : World,
      XIOModule_binding
        (IOModule (exec (IOModule_Enable (Shift e)) w0)) j
      = XIOModule_binding (IOModule w0) j).
    { intros w0. rewrite IOModule_after_Enable. apply (enable_keeps L). }
    cbn [map].
    destruct (in_dec Z.eq_dec j (map Shift tbl)) as [Hj | Hj].
    + destruct (in_dec Z.eq_dec j (Shift e :: map Shift tbl)) as [_ | Hn];
        [reflexivity | exfalso; apply Hn; by right].
    + rewrite Hstep.
      assert (Hprint : forall (b : bool) (w0 : World),
        IOModule (exec (if b
                        then XPsmFw_Printf DEBUG_ERROR
                               "%s: Error! IO Module connect failed\r\n"
                               [ArgS "SetUpInterruptSystem"]
                        else ret tt) w0) = IOModule w0)
        by (intros [] w0; reflexivity).
      rewrite Hprint, IOModule_after_Connect.
      pose proof (connect_binds L (Shift e) XPsmFw_IntrHandler_p (Shift e)
                    (IOModule w, hw w) He) as (_ & Hb & Ho).
      destruct (in_dec Z.eq_dec j (Shift e :: map Shift tbl)) as [Hi | Hn].
      * destruct Hi as [<- | Hi]; [exact Hb | contradiction].
      * apply Ho. intros ->. apply Hn. by left.
Qed.

(** X6. For a driver that honours its connect contract, with source
    numbers below the table size (itself within the [u8] range of the
    driver's id), SetUpInterruptSystem returns XST_SUCCESS having bound
    XPsmFw_IntrHandler to the shift of every entry of the top-level
    table, the shift being the callback reference, and having touched no
    other binding. *)
Theorem setup_connects_dispatcher_to_every_source :
  SetupLaws ->
  XPAR_IOMODULE_INTC_MAX_INTR_SIZE <= 256 ->
  (forall e, In e g_TopLevelInterruptTable ->
     0 <= Shift e < XPAR_IOMODULE_INTC_MAX_INTR_SIZE) ->
  0 <= XIL_EXCEPTION_ID_FIRST <= XIL_EXCEPTION_ID_LAST ->
  XIL_EXCEPTION_ID_LAST < 65535 ->
  forall (w : World) (fuel : nat),
    (Z.to_nat (XIL_EXCEPTION_ID_LAST + 1 - XIL_EXCEPTION_ID_FIRST) < fuel)%nat ->
    exists w',
      SetUpInterruptSystem fuel w = Returned XST_SUCCESS w'
      /\ (forall e, In e g_TopLevelInterruptTable ->
            XIOModule_binding (IOModule w') (Shift e)
            = Some (XPsmFw_IntrHandler_p, Shift e))
      /\ (forall j, ~ In j (map Shift g_TopLevelInterruptTable) ->
            XIOModule_binding (IOModule w') j
            = XIOModule_binding (IOModule w) j).
Proof.
  intros [L Hstart] Hmax Hshifts Hrange Hlast w fuel Hfuel.
  unfold SetUpInterruptSystem, XPsmfw_ExceptionInit.
  rewrite u16_small by lia.
  assert (HI : 0 <= XIL_EXCEPTION_ID_FIRST <= XIL_EXCEPTION_ID_LAST + 1)
    by lia.
  match goal with |- context [ExceptionInit_loop fuel _ ?x] =>
    set (w1 := x);
    destruct (ExceptionInit_loop_returns _ XIL_EXCEPTION_ID_FIRST w1 fuel
                HI Hlast eq_refl Hfuel)
      as (w2 & Hret & _ & Hio & _ & _) end.
  rewrite Hret. eexists. split; [reflexivity|]. cbn [IOModule].
  simpl. rewrite Hio.
  assert (Hb : forall j,
    XIOModule_binding (IOModule w1) j
    = if in_dec Z.eq_dec j (map Shift g_TopLevelInterruptTable)
      then Some (XPsmFw_IntrHandler_p, j)
      else XIOModule_binding (IOModule w) j).
  { intros j. unfold w1. rewrite !exec_bind.
    match goal with |- context [negb ?b] => destruct (negb b) end;
      [change (IOModule (exec (XPsmFw_Printf ?t ?f ?a) ?x)) with (IOModule x)
      | rewrite exec_ret];
      rewrite IOModule_after_Start, Hstart;
      by apply SetUp_loop_bindings. }
  split.
  - intros e He. rewrite Hb.
    destruct (in_dec Z.eq_dec (Shift e) (map Shift g_TopLevelInterruptTable))
      as [_ | Hn]; [reflexivity|].
    exfalso. apply Hn. by apply in_map.
  - intros j Hj. rewrite Hb.
    destruct (in_dec Z.eq_dec j (map Shift g_TopLevelInterruptTable));
      [contradiction | reflexivity].
Qed.

(** The value SetUpInterruptSystem writes to the machine status
    register for a value [msr] read from it. *)
Definition clear_bip (msr : Z) : Z :=
  Z.land msr (u32 (Z.lnot XPSMFW_MB_MSR_BIP_MASK)).

Lemma clear_bip_bits (msr i : Z) :
  0 <= i ->
  Z.testbit (clear_bip msr) i
  = Z.testbit msr i && (i <? 32) && negb (i =? 3).
Proof.
  intros Hi. unfold clear_bip.
  change (u32 (Z.lnot XPSMFW_MB_MSR_BIP_MASK))
    with (Z.ldiff (Z.ones 32) (2 ^ 3)).
  rewrite Z.land_spec, Z.ldiff_spec, Z.pow2_bits_eqb by lia.
  rewrite <- andb_assoc. f_equal. f_equal.
  - destruct (Z.ltb_spec i 32).
    + apply Z.ones_spec_low. lia.
    + apply Z.ones_spec_high. lia.
  - by rewrite Z.eqb_sym.
Qed.

(** X7. The last hardware action of SetUpInterruptSystem is to write
    the machine status register with the value it has just read from it
    in which bit 3, break in progress, is cleared; the other bits of the
    32-bit value are kept. *)
Theorem setup_clears_break_in_progress :
  0 <= XIL_EXCEPTION_ID_FIRST <= XIL_EXCEPTION_ID_LAST ->
  XIL_EXCEPTION_ID_LAST < 65535 ->
  forall (w : World) (fuel : nat),
    (Z.to_nat (XIL_EXCEPTION_ID_LAST + 1 - XIL_EXCEPTION_ID_FIRST) < fuel)%nat ->
    exists (w' : World) (h : HW),
      SetUpInterruptSystem fuel w = Returned XST_SUCCESS w'
      /\ hw w' = mtmsr_hw (clear_bip (mfmsr_hw h)) h
      /\ forall i, 0 <= i ->
           Z.testbit (clear_bip (mfmsr_hw h)) i
           = Z.testbit (mfmsr_hw h) i && (i <? 32) && negb (i =? 3).
Proof.
  intros Hrange Hlast w fuel Hfuel.
  unfold SetUpInterruptSystem, XPsmfw_ExceptionInit.
  rewrite u16_small by lia.
  assert (HI : 0 <= XIL_EXCEPTION_ID_FIRST <= XIL_EXCEPTION_ID_LAST + 1)
    by lia.
  match goal with |- context [ExceptionInit_loop fuel _ ?x] =>
    destruct (ExceptionInit_loop_returns _ XIL_EXCEPTION_ID_FIRST x fuel
                HI Hlast eq_refl Hfuel)
      as (w2 & Hret & _ & _ & _ & _) end.
  rewrite Hret. eexists. exists (Xil_ExceptionEnable_hw (hw w2)).
  split; [reflexivity|]. split; [reflexivity|].
  intros i Hi. by apply clear_bip_bits.
Qed.

End SetUp.

Section Initialisation.

Context {P : Platform} {D : InitDriver P}.

Definition init_failed_msg : event :=
  EvPrintf DEBUG_ERROR "IO Module: Init failed\r\n"%string [].

Definition selftest_failed_msg : event :=
  EvPrintf DEBUG_ERROR "IO Module: Self test failed\r\n"%string [].

Definition init_completed_msg : event :=
  EvPrintf DEBUG_DETAILED "IO Module init completed\r\n"%string [].

Lemma Initialize_frame (DeviceId : Z) (w : World) :
  trace (exec (IOModule_Initialize DeviceId) w) = trace w
  /\ ExcTable (exec (IOModule_Initialize DeviceId) w) = ExcTable w.
Proof.
  unfold exec, IOModule_Initialize.
  destruct (XIOModule_Initialize DeviceId (IOModule w, hw w)) as [st [io h']].
  done.
Qed.

Lemma SelfTest_frame (w : World) :
  trace (exec IOModule_SelfTest w) = trace w
  /\ ExcTable (exec IOModule_SelfTest w) = ExcTable w.
Proof.
  unfold exec, IOModule_SelfTest.
  destruct (XIOModule_SelfTest (IOModule w, hw w)) as [st [io h']].
  done.
Qed.

(** X8. XPsmFw_IoModuleInit stops at the first driver step that fails.
    When XIOModule_Initialize does not return XST_SUCCESS, or it does and
    XIOModule_SelfTest does not, the function returns that status, for
    any bound on the run, having printed only the matching error and
    registered no exception handler: the interrupt system is not set
    up. *)
Theorem init_stops_at_first_failure (fuel : nat) (DeviceId : Z)
  (w : World) :
  let st_init := fst (IOModule_Initialize DeviceId w) in
  let w_init := exec (IOModule_Initialize DeviceId) w in
  let st_test := fst (IOModule_SelfTest w_init) in
  (st_init <> XST_SUCCESS ->
   exists w', XPsmFw_IoModuleInit fuel DeviceId w = Returned st_init w'
     /\ trace w' = trace w ++ [init_failed_msg]
     /\ ExcTable w' = ExcTable w)
  /\ (st_init = XST_SUCCESS -> st_test <> XST_SUCCESS ->
   exists w', XPsmFw_IoModuleInit fuel DeviceId w = Returned st_test w'
     /\ trace w' = trace w ++ [selftest_failed_msg]
     /\ ExcTable w' = ExcTable w).
Proof.
  intros st_init w_init st_test.
  destruct (Initialize_frame DeviceId w) as [Ht1 He1].
  destruct (SelfTest_frame w_init) as [Ht2 He2].
  fold w_init in Ht1, He1.
  unfold XPsmFw_IoModuleInit.
  subst st_init st_test w_init. unfold exec in *.
  destruct (IOModule_Initialize DeviceId w) as [s1 w1]. cbn [fst snd] in *.
  split.
  - intros Hne. apply Z.eqb_neq in Hne. rewrite Hne. simpl negb. cbv iota.
    eexists. split; [reflexivity|]. simpl. by rewrite Ht1, He1.
  - intros -> Hne. rewrite Z.eqb_refl. simpl negb. cbv iota.
    destruct (IOModule_SelfTest w1) as [s2 w2]. cbn [fst snd] in *.
    apply Z.eqb_neq in Hne. rewrite Hne. simpl negb. cbv iota.
    eexists. split; [reflexivity|]. simpl. by rewrite Ht2, He2, Ht1, He1.
Qed.

Lemma SetUp_returns_success (fuel : nat) (w w' : World) (r : Z) :
  SetUpInterruptSystem fuel w = Returned r w' -> r = XST_SUCCESS.
Proof.
  unfold SetUpInterruptSystem.
  destruct (XPsmfw_ExceptionInit fuel _) as [[] w2 | w2]; [|discriminate].
  simpl. by intros [= <- _].
Qed.

(** X9. Once XIOModule_Initialize and XIOModule_SelfTest have returned
    XST_SUCCESS, XPsmFw_IoModuleInit cannot report a failure: whatever
    the driver answers to the connect and start calls of the set-up, it
    returns XST_SUCCESS and its last action is the print that
    initialisation completed.  The error branch that follows the set-up
    is never taken. *)
Theorem init_does_not_report_setup_failures (fuel : nat) (DeviceId : Z)
  (w : World) :
  0 <= XIL_EXCEPTION_ID_FIRST <= XIL_EXCEPTION_ID_LAST ->
  XIL_EXCEPTION_ID_LAST < 65535 ->
  (Z.to_nat (XIL_EXCEPTION_ID_LAST + 1 - XIL_EXCEPTION_ID_FIRST) < fuel)%nat ->
  fst (IOModule_Initialize DeviceId w) = XST_SUCCESS ->
  fst (IOModule_SelfTest (exec (IOModule_Initialize DeviceId) w))
  = XST_SUCCESS ->
  exists (w' : World) (before : list event),
    XPsmFw_IoModuleInit fuel DeviceId w = Returned XST_SUCCESS w'
    /\ trace w' = before ++ [init_completed_msg].
Proof.
  intros Hrange Hlast Hfuel Hinit Htest.
  unfold XPsmFw_IoModuleInit. unfold exec in Htest.
  destruct (IOModule_Initialize DeviceId w) as [s1 w1]. cbn [fst snd] in *.
  subst s1. rewrite Z.eqb_refl. simpl negb. cbv iota.
  destruct (IOModule_SelfTest w1) as [s2 w2]. cbn [fst snd] in *.
  subst s2. rewrite Z.eqb_refl. simpl negb. cbv iota.
  destruct (SetUpInterruptSystem fuel w2) as [r w3 | w3] eqn:E.
  - rewrite (SetUp_returns_success fuel w2 w3 r E), Z.eqb_refl.
    simpl negb. cbv iota. exists (exec (XPsmFw_Printf DEBUG_DETAILED
      "IO Module init completed\r\n"%string []) w3), (trace w3).
    split; reflexivity.
  - exfalso. revert E. unfold SetUpInterruptSystem, XPsmfw_ExceptionInit.
    rewrite u16_small by lia.
    assert (HI : 0 <= XIL_EXCEPTION_ID_FIRST <= XIL_EXCEPTION_ID_LAST + 1)
      by lia.
    match goal with |- context [ExceptionInit_loop fuel _ ?x] =>
      destruct (ExceptionInit_loop_returns _ XIL_EXCEPTION_ID_FIRST x fuel
                  HI Hlast eq_refl Hfuel) as (w4 & Hret & _) end.
    rewrite Hret. discriminate.
Qed.

End Initialisation.

Section Override.

Context {P : Platform}.

Lemma Register_unfold_in_range (n : Z) (h : intr_fn) :
  n < XPAR_IOMODULE_INTC_MAX_INTR_SIZE ->
  XPsmFw_RegisterStlInterruptHandler n (Some h)
  = bind (IOModule_Disable n) (fun _ =>
      bind (IOModule_Connect n (Some h) NULL) (fun Status =>
        if negb (XST_SUCCESS =? Status) then ret Status
        else bind (IOModule_Enable n) (fun _ => ret Status))).
Proof.
  intros Hn. unfold XPsmFw_RegisterStlInterruptHandler.
  destruct (Z.leb_spec XPAR_IOMODULE_INTC_MAX_INTR_SIZE n); [lia|].
  reflexivity.
Qed.

Lemma Restore_unfold_in_range (n : Z) :
  n < XPAR_IOMODULE_INTC_MAX_INTR_SIZE ->
  XPsmFw_RestoreInterruptHandler n
  = bind (IOModule_Disable n) (fun _ =>
      bind (IOModule_Connect n (Some XPsmFw_IntrHandler_p) NULL)
        (fun Status =>
        if negb (XST_SUCCESS =? Status) then ret Status
        else bind (IOModule_Enable n) (fun _ => ret Status))).
Proof.
  intros Hn. unfold XPsmFw_RestoreInterruptHandler.
  destruct (Z.leb_spec XPAR_IOMODULE_INTC_MAX_INTR_SIZE n); [lia|].
  reflexivity.
Qed.

(** The driver state after [Disable n] followed by a connect of [h]. *)
Definition disabled_then_connected (n : Z) (h : intr_fn) (w : World)
  : Z * (XIOModule * HW) :=
  XIOModule_Connect n (Some h) NULL (XIOModule_Disable n (IOModule w, hw w)).

Lemma connect_failure_skips_enable (n : Z) (h : intr_fn) (w : World) :
  fst (disabled_then_connected n h w) <> XST_SUCCESS ->
  let m := bind (IOModule_Disable n) (fun _ =>
      bind (IOModule_Connect n (Some h) NULL) (fun Status =>
        if negb (XST_SUCCESS =? Status) then ret Status
        else bind (IOModule_Enable n) (fun _ => ret Status))) in
  fst (m w) = fst (disabled_then_connected n h w)
  /\ (IOModule (exec m w), hw (exec m w)) = snd (disabled_then_connected n h w)
  /\ trace (exec m w) = trace w
  /\ ExcTable (exec m w) = ExcTable w.
Proof.
  unfold disabled_then_connected, exec, bind, IOModule_Disable,
    IOModule_Connect, ret.
  destruct (XIOModule_Disable n (IOModule w, hw w)) as [io1 h1]. simpl.
  destruct (XIOModule_Connect n (Some h) NULL (io1, h1)) as [st [io2 h2]].
  simpl. intros Hne.
  destruct (Z.eqb_spec XST_SUCCESS st) as [Heq | _]; [congruence|].
  simpl. done.
Qed.

(** X10. When the driver's connect call does not return XST_SUCCESS,
    override and restore return that status and do not enable the
    interrupt again: the driver is left exactly as the disable and the
    failed connect left it, and nothing is printed. *)
Theorem connect_failure_leaves_interrupt_disabled (n : Z) (h : intr_fn)
  (w : World) :
  n < XPAR_IOMODULE_INTC_MAX_INTR_SIZE ->
  (fst (disabled_then_connected n h w) <> XST_SUCCESS ->
   let m := XPsmFw_RegisterStlInterruptHandler n (Some h) in
   fst (m w) = fst (disabled_then_connected n h w)
   /\ (IOModule (exec m w), hw (exec m w))
      = snd (disabled_then_connected n h w)
   /\ trace (exec m w) = trace w
   /\ ExcTable (exec m w) = ExcTable w)
  /\ (fst (disabled_then_connected n XPsmFw_IntrHandler_p w) <> XST_SUCCESS ->
   let m := XPsmFw_RestoreInterruptHandler n in
   fst (m w) = fst (disabled_then_connected n XPsmFw_IntrHandler_p w)
   /\ (IOModule (exec m w), hw (exec m w))
      = snd (disabled_then_connected n XPsmFw_IntrHandler_p w)
   /\ trace (exec m w) = trace w
   /\ ExcTable (exec m w) = ExcTable w).
Proof.
  intros Hn. split; intros Hfail.
  - rewrite Register_unfold_in_range by exact Hn.
    by apply connect_failure_skips_enable.
  - rewrite Restore_unfold_in_range by exact Hn.
    by apply connect_failure_skips_enable.
Qed.

Lemma Register_installs (L : DriverLaws) (n : Z) (h : intr_fn) (w : World) :
  0 <= n < XPAR_IOMODULE_INTC_MAX_INTR_SIZE ->
  installs (XPsmFw_RegisterStlInterruptHandler n (Some h)) w n h.
Proof.
  intros Hn. rewrite Register_unfold_in_range by lia.
  by apply connect_sequence_installs.
Qed.

Lemma Restore_installs (L : DriverLaws) (n : Z) (w : World) :
  0 <= n < XPAR_IOMODULE_INTC_MAX_INTR_SIZE ->
  installs (XPsmFw_RestoreInterruptHandler n) w n XPsmFw_IntrHandler_p.
Proof.
  intros Hn. rewrite Restore_unfold_in_range by lia.
  by apply connect_sequence_installs.
Qed.

(** X11. For a driver that honours its connect contract and an
    interrupt number below the table size: a restore that follows an
    override succeeds and leaves that interrupt bound to
    XPsmFw_IntrHandler, every other binding being what it was before
    the override; and of two overrides in a row the second handler is
    the one bound. *)
Theorem restore_undoes_override (n : Z) (h h2 : intr_fn) (w : World) :
  DriverLaws ->
  0 <= n < XPAR_IOMODULE_INTC_MAX_INTR_SIZE ->
  let w1 := exec (XPsmFw_RegisterStlInterruptHandler n (Some h)) w in
  let w2 := exec (XPsmFw_RestoreInterruptHandler n) w1 in
  let w2' := exec (XPsmFw_RegisterStlInterruptHandler n (Some h2)) w1 in
  fst (XPsmFw_RestoreInterruptHandler n w1) = XST_SUCCESS
  /\ XIOModule_binding (IOModule w2) n = Some (XPsmFw_IntrHandler_p, NULL)
  /\ (forall j, j <> n ->
        XIOModule_binding (IOModule w2) j = XIOModule_binding (IOModule w) j)
  /\ XIOModule_binding (IOModule w2') n = Some (h2, NULL).
Proof.
  intros L Hn w1 w2 w2'.
  destruct (Register_installs L n h w Hn) as (_ & _ & Ho1).
  destruct (Restore_installs L n w1 Hn) as (Hs & Hb & Ho2).
  destruct (Register_installs L n h2 w1 Hn) as (_ & Hb2 & _).
  split; [exact Hs|]. split; [exact Hb|]. split; [|exact Hb2].
  intros j Hj. unfold w2. rewrite (Ho2 j Hj). by apply Ho1.
Qed.

End Override.

Section ExceptionInit.

Context {P : Platform}.

Lemma u16_range (z : Z) : 0 <= u16 z <= 65535.
Proof.
  unfold u16. pose proof (Z.mod_pos_bound z (2 ^ 16) ltac:(lia)). lia.
Qed.

Lemma ExceptionInit_loop_never_returns (fuel : nat) :
  65535 <= XIL_EXCEPTION_ID_LAST ->
  forall (Index : Z) (w : World),
    0 <= Index <= 65535 ->
    exists w', ExceptionInit_loop fuel Index w = Running w'.
Proof.
  intros Hlast. induction fuel as [|fuel IH]; intros Index w HI; simpl.
  - eauto.
  - destruct (Z.leb_spec Index XIL_EXCEPTION_ID_LAST); [|lia].
    apply IH. apply u16_range.
Qed.

(** X12. The registration loop counts with a [u16]: when
    XIL_EXCEPTION_ID_LAST is 65535 or more the counter can never pass
    it, and XPsmfw_ExceptionInit, hence SetUpInterruptSystem, is still
    running after any number of iterations. *)
Theorem exception_init_needs_last_below_u16_max :
  65535 <= XIL_EXCEPTION_ID_LAST ->
  forall (fuel : nat) (w : World),
    (exists w', XPsmfw_ExceptionInit fuel w = Running w')
    /\ (exists w', SetUpInterruptSystem fuel w = Running w').
Proof.
  intros Hlast fuel w.
  assert (H : forall w0, exists w', XPsmfw_ExceptionInit fuel w0 = Running w').
  { intros w0. apply ExceptionInit_loop_never_returns; [exact Hlast|].
    apply u16_range. }
  split; [apply H|].
  unfold SetUpInterruptSystem.
  match goal with |- context [XPsmfw_ExceptionInit fuel ?x] =>
    destruct (H x) as [w' ->] end.
  eauto.
Qed.

(** X13. XPsmfw_ExceptionInit changes the vector table only: it returns
    with the hardware, the driver instance and the trace as they were
    (no register access, no print), and the handler registered for any
    id outside FIRST..LAST is the one that was there before. *)
Theorem exception_init_touches_only_its_range :
  0 <= XIL_EXCEPTION_ID_FIRST <= XIL_EXCEPTION_ID_LAST ->
  XIL_EXCEPTION_ID_LAST < 65535 ->
  forall (w : World) (fuel : nat),
    (Z.to_nat (XIL_EXCEPTION_ID_LAST + 1 - XIL_EXCEPTION_ID_FIRST) < fuel)%nat ->
    exists w',
      XPsmfw_ExceptionInit fuel w = Returned tt w'
      /\ hw w' = hw w /\ IOModule w' = IOModule w /\ trace w' = trace w
      /\ forall id,
           ~ (XIL_EXCEPTION_ID_FIRST <= id <= XIL_EXCEPTION_ID_LAST) ->
           ExcTable w' !! id = ExcTable w !! id.
Proof.
  intros Hrange Hlast w fuel Hfuel. unfold XPsmfw_ExceptionInit.
  rewrite u16_small by lia.
  assert (HI : 0 <= XIL_EXCEPTION_ID_FIRST <= XIL_EXCEPTION_ID_LAST + 1)
    by lia.
  destruct (ExceptionInit_loop_returns _ XIL_EXCEPTION_ID_FIRST w fuel
              HI Hlast eq_refl Hfuel)
    as (w' & Hret & Hhw & Hio & Htr & Htab).
  exists w'. repeat split; try done.
  intros id Hid. rewrite Htab, bool_decide_eq_false_2; done.
Qed.

End ExceptionInit.

(** *** The statements on concrete boards *)

(** The board of Part III with another last exception id, and with a
    driver whose connect fails with [connect_status] unless that is 0. *)
Definition board_variant (last connect_status : Z) : Platform := {|
  HW := @HW board;
  mmio_read := @mmio_read board;
  mmio_write := @mmio_write board;
  extern_call := @extern_call board;
  XST_SUCCESS := @XST_SUCCESS board;
  XST_FAILURE := @XST_FAILURE board;
  XST_INVALID_PARAM := @XST_INVALID_PARAM board;
  IPI_PSM_ISR := @IPI_PSM_ISR board;
  IPI_PSM_ISR_PMC_MASK := @IPI_PSM_ISR_PMC_MASK board;
  PSM_GLOBAL_REG_REQ_PWRUP_STATUS := @PSM_GLOBAL_REG_REQ_PWRUP_STATUS board;
  PSM_GLOBAL_REG_REQ_PWRUP_INT_MASK := @PSM_GLOBAL_REG_REQ_PWRUP_INT_MASK board;
  PSM_GLOBAL_REG_REQ_PWRDWN_STATUS := @PSM_GLOBAL_REG_REQ_PWRDWN_STATUS board;
  PSM_GLOBAL_REG_REQ_PWRDWN_INT_MASK := @PSM_GLOBAL_REG_REQ_PWRDWN_INT_MASK board;
  PSM_GLOBAL_REG_WAKEUP_IRQ_STATUS := @PSM_GLOBAL_REG_WAKEUP_IRQ_STATUS board;
  PSM_GLOBAL_REG_WAKEUP_IRQ_MASK := @PSM_GLOBAL_REG_WAKEUP_IRQ_MASK board;
  PSM_GLOBAL_REG_PWR_CTRL_IRQ_STATUS := @PSM_GLOBAL_REG_PWR_CTRL_IRQ_STATUS board;
  PSM_GLOBAL_REG_PWR_CTRL_IRQ_MASK := @PSM_GLOBAL_REG_PWR_CTRL_IRQ_MASK board;
  PSM_GLOBAL_GICP2_IRQ_STATUS := @PSM_GLOBAL_GICP2_IRQ_STATUS board;
  PSM_GLOBAL_GICP2_IRQ_MASK := @PSM_GLOBAL_GICP2_IRQ_MASK board;
  PSM_GLOBAL_REG_ERR1_TRIG := @PSM_GLOBAL_REG_ERR1_TRIG board;
  PSM_GLOBAL_REG_ERR1_TRIG_PSM_B_NCR_MASK := @PSM_GLOBAL_REG_ERR1_TRIG_PSM_B_NCR_MASK board;
  PSM_IOMODULE_IRQ_PENDING := @PSM_IOMODULE_IRQ_PENDING board;
  PSM_IOMODULE_IRQ_ACK := @PSM_IOMODULE_IRQ_ACK board;
  PSM_IOMODULE_IRQ_PENDING_IPI_SHIFT := @PSM_IOMODULE_IRQ_PENDING_IPI_SHIFT board;
  PSM_IOMODULE_IRQ_PENDING_IPI_MASK := @PSM_IOMODULE_IRQ_PENDING_IPI_MASK board;
  PSM_IOMODULE_IRQ_PENDING_PWR_UP_REQ_SHIFT := @PSM_IOMODULE_IRQ_PENDING_PWR_UP_REQ_SHIFT board;
  PSM_IOMODULE_IRQ_PENDING_PWR_UP_REQ_MASK := @PSM_IOMODULE_IRQ_PENDING_PWR_UP_REQ_MASK board;
  PSM_IOMODULE_IRQ_PENDING_PWR_DWN_REQ_SHIFT := @PSM_IOMODULE_IRQ_PENDING_PWR_DWN_REQ_SHIFT board;
  PSM_IOMODULE_IRQ_PENDING_PWR_DWN_REQ_MASK := @PSM_IOMODULE_IRQ_PENDING_PWR_DWN_REQ_MASK board;
  PSM_IOMODULE_IRQ_PENDING_WAKE_UP_REQ_SHIFT := @PSM_IOMODULE_IRQ_PENDING_WAKE_UP_REQ_SHIFT board;
  PSM_IOMODULE_IRQ_PENDING_WAKE_UP_REQ_MASK := @PSM_IOMODULE_IRQ_PENDING_WAKE_UP_REQ_MASK board;
  PSM_IOMODULE_IRQ_PENDING_PWR_CNT_REQ_SHIFT := @PSM_IOMODULE_IRQ_PENDING_PWR_CNT_REQ_SHIFT board;
  PSM_IOMODULE_IRQ_PENDING_PWR_CNT_REQ_MASK := @PSM_IOMODULE_IRQ_PENDING_PWR_CNT_REQ_MASK board;
  PSM_IOMODULE_IRQ_PENDING_SW_RST_REQ_SHIFT := @PSM_IOMODULE_IRQ_PENDING_SW_RST_REQ_SHIFT board;
  PSM_IOMODULE_IRQ_PENDING_SW_RST_REQ_MASK := @PSM_IOMODULE_IRQ_PENDING_SW_RST_REQ_MASK board;
  PSM_IOMODULE_IRQ_PENDING_GICP_INT_SHIFT := @PSM_IOMODULE_IRQ_PENDING_GICP_INT_SHIFT board;
  PSM_IOMODULE_IRQ_PENDING_GICP_INT_MASK := @PSM_IOMODULE_IRQ_PENDING_GICP_INT_MASK board;
  XIL_EXCEPTION_ID_FIRST := @XIL_EXCEPTION_ID_FIRST board;
  XIL_EXCEPTION_ID_LAST := last;
  XIL_EXCEPTION_ID_INT := @XIL_EXCEPTION_ID_INT board;
  XPAR_IOMODULE_INTC_MAX_INTR_SIZE := @XPAR_IOMODULE_INTC_MAX_INTR_SIZE board;
  XPAR_XIPIPSU_0_DEVICE_ID_defined := @XPAR_XIPIPSU_0_DEVICE_ID_defined board;
  XIOModule := @XIOModule board;
  XIOModule_Connect := fun Id h cb s =>
    if connect_status =? 0 then @XIOModule_Connect board Id h cb s
    else (connect_status, s);
  XIOModule_Enable := @XIOModule_Enable board;
  XIOModule_Disable := @XIOModule_Disable board;
  XIOModule_Start := @XIOModule_Start board;
  XIOModule_binding := @XIOModule_binding board;
  Xil_ExceptionEnable_hw := @Xil_ExceptionEnable_hw board;
  mfmsr_hw := @mfmsr_hw board;
  mtmsr_hw := @mtmsr_hw board;
|}.

(** A driver whose initialise and self-test calls answer [st_init] and
    [st_test] and change nothing. *)
Definition answering (P : Platform) (st_init st_test : Z) : InitDriver P := {|
  XIOModule_Initialize := fun _ s => (st_init, s);
  XIOModule_SelfTest := fun s => (st_test, s);
|}.

(** Worlds of the board with nothing pending, and with an IPI from the
    PMC in the IPI status register. *)
Definition board_idle : @World board :=
  @mkWorld board (fun _ => 0) (fun _ => None) ∅ [].

Definition board_pmc_ipi : @World board :=
  @mkWorld board (fun a => if a =? 0xFF310010 then 0x2 else 0)
    (fun _ => None) ∅ [].

Definition variant_world (last connect_status : Z)
  : @World (board_variant last connect_status) :=
  @mkWorld (board_variant last connect_status)
    (fun _ => 0) (fun _ => None) ∅ [].

Lemma board_setup_laws : @SetupLaws board.
Proof. split; [exact board_driver_laws | done]. Qed.

Lemma board_shifts_in_range (e : @HandlerTable) :
  In e (@g_TopLevelInterruptTable board) -> 0 <= Shift e < 32.
Proof.
  intros He. repeat (destruct He as [<- | He]; [simpl; lia|]). destruct He.
Qed.

Lemma board_masks_nonzero (e : @HandlerTable) :
  In e (@g_TopLevelInterruptTable board) -> Mask e <> 0.
Proof.
  intros He. repeat (destruct He as [<- | He]; [simpl; lia|]). destruct He.
Qed.

Lemma second_level_handler_forwards_reads_witness :
  XPsmfw_InterruptPwrDwnHandler_p <> XPsmFw_InterruptIpiHandler_p
  /\ exists (vals : list Z) (st : Z),
       length vals = 4%nat
       /\ trace (exec (@XPsmfw_InterruptPwrDwnHandler board) board_world)
          = zip_with EvRead32
              [0xFFC90210; 0xFFC90214; 0xFFC90110; 0xFFC90114] vals
            ++ [EvExtern XPsmFw_DispatchPwrDwnHandler vals st]
            ++ (if 0 =? st then []
                else [EvPrintf DEBUG_ERROR
                        "Error in handling Power down interrupt\r\n"%string
                        []]).
Proof.
  assert (H : XPsmfw_InterruptPwrDwnHandler_p <> XPsmFw_InterruptIpiHandler_p)
    by discriminate.
  split; [exact H|].
  exact (@second_level_handler_forwards_reads board
           XPsmfw_InterruptPwrDwnHandler_p board_world H).
Defined.

Lemma ipi_from_pmc_is_dispatched_witness :
  2 = Z.land 2 (fst (@XPsmFw_Read32 board 0xFF310010 board_pmc_ipi))
  /\ exists st,
       trace (exec (@XPsmFw_InterruptIpiHandler board) board_pmc_ipi)
       = [EvRead32 0xFF310010 2;
          EvExtern XPsmFw_DispatchIpiHandler [2] st;
          EvWrite32 0xFF310010 2]
         ++ (if 0 =? st then [] else [@ipi_error_msg]).
Proof.
  assert (H : 2 = Z.land 2 (fst (@XPsmFw_Read32 board 0xFF310010
                                   board_pmc_ipi))) by reflexivity.
  split; [exact H|].
  exact (@ipi_from_pmc_is_dispatched board board_pmc_ipi H).
Defined.

Lemma dispatch_with_nothing_pending_witness :
  @pending_read board 17 board_idle = 0
  /\ trace (exec (@XPsmFw_IntrHandler board 17) board_idle)
     = [@intr_print 17; EvRead32 0xFFC80034 0].
Proof.
  assert (H : @pending_read board 17 board_idle = 0) by reflexivity.
  split; [exact H|].
  apply (@dispatch_with_nothing_pending board 17 board_idle H
           board_masks_nonzero).
Defined.

Lemma setup_connects_dispatcher_to_every_source_witness :
  exists w',
    @SetUpInterruptSystem board 10 board_world = Returned 0 w'
    /\ @XIOModule_binding board (IOModule w') 18
       = Some (XPsmFw_IntrHandler_p, 18)
    /\ @XIOModule_binding board (IOModule w') 3 = None.
Proof.
  assert (H1 : 0 <= 0 <= 7) by lia.
  assert (H2 : 7 < 65535) by lia.
  assert (H3 : (32 : Z) <= 256) by lia.
  assert (H4 : (Z.to_nat (7 + 1 - 0) < 10)%nat) by (vm_compute; lia).
  destruct (@setup_connects_dispatcher_to_every_source board
              board_setup_laws H3 board_shifts_in_range H1 H2
              board_world 10%nat H4) as (w' & Hret & Hin & Hout).
  exists w'. split; [exact Hret|]. split.
  - apply (Hin (mkHandlerTable 18 0x40000
                  (Some XPsmfw_InterruptPwrDwnHandler_p))).
    simpl. tauto.
  - rewrite (Hout 3); [reflexivity|].
    simpl. intros H. repeat (destruct H as [H | H]; [discriminate|]).
    exact H.
Defined.

Lemma setup_clears_break_in_progress_witness :
  exists (w' : @World board) (h : @HW board),
    @SetUpInterruptSystem board 10 board_world = Returned 0 w'
    /\ Z.testbit (@clear_bip (@mfmsr_hw board h)) 3 = false.
Proof.
  assert (H1 : 0 <= 0 <= 7) by lia.
  assert (H2 : 7 < 65535) by lia.
  assert (H4 : (Z.to_nat (7 + 1 - 0) < 10)%nat) by (vm_compute; lia).
  destruct (@setup_clears_break_in_progress board H1 H2 board_world 10%nat H4)
    as (w' & h & Hret & _ & Hbits).
  exists w', h. split; [exact Hret|].
  rewrite Hbits by lia. apply andb_false_r.
Defined.

Lemma init_stops_at_first_failure_witness :
  (exists w',
     @XPsmFw_IoModuleInit board (answering board 1 0) 10 0 board_world
     = Returned 1 w'
     /\ trace w' = [@init_failed_msg] /\ ExcTable w' = ∅)
  /\ (exists w',
     @XPsmFw_IoModuleInit board (answering board 0 13) 10 0 board_world
     = Returned 13 w'
     /\ trace w' = [@selftest_failed_msg] /\ ExcTable w' = ∅).
Proof.
  split.
  - apply (@init_stops_at_first_failure board (answering board 1 0)
             10 0 board_world). simpl. lia.
  - apply (@init_stops_at_first_failure board (answering board 0 13)
             10 0 board_world); simpl; [reflexivity | lia].
Defined.

Lemma init_does_not_report_setup_failures_witness :
  exists (w' : @World (board_variant 7 1)) (before : list event),
    @XPsmFw_IoModuleInit (board_variant 7 1)
      (answering (board_variant 7 1) 0 0) 10 0 (variant_world 7 1)
    = Returned 0 w'
    /\ trace w' = before ++ [@init_completed_msg].
Proof.
  apply (@init_does_not_report_setup_failures (board_variant 7 1)
           (answering (board_variant 7 1) 0 0) 10 0 (variant_world 7 1)).
  - simpl. lia.
  - simpl. lia.
  - vm_compute. lia.
  - reflexivity.
  - reflexivity.
Defined.

Lemma connect_failure_leaves_interrupt_disabled_witness :
  fst (@XPsmFw_RegisterStlInterruptHandler (board_variant 7 5) 3
         (Some (Stl_p 0x2000)) (variant_world 7 5)) = 5
  /\ trace (exec (@XPsmFw_RegisterStlInterruptHandler (board_variant 7 5) 3
                    (Some (Stl_p 0x2000))) (variant_world 7 5)) = []
  /\ fst (@XPsmFw_RestoreInterruptHandler (board_variant 7 5) 3
            (variant_world 7 5)) = 5.
Proof.
  assert (Hn : 3 < @XPAR_IOMODULE_INTC_MAX_INTR_SIZE (board_variant 7 5))
    by (simpl; lia).
  destruct (@connect_failure_leaves_interrupt_disabled (board_variant 7 5)
              3 (Stl_p 0x2000) (variant_world 7 5) Hn) as [Hreg Hres].
  destruct Hreg as (Hst & _ & Htr & _); [vm_compute; discriminate|].
  destruct Hres as (Hst' & _); [vm_compute; discriminate|].
  split; [exact Hst|]. split; [exact Htr | exact Hst'].
Defined.

Lemma restore_undoes_override_witness :
  0 <= 3 < 32
  /\ @XIOModule_binding board
       (IOModule (exec (@XPsmFw_RestoreInterruptHandler board 3)
                    (exec (@XPsmFw_RegisterStlInterruptHandler board 3
                             (Some (Stl_p 0x2000))) board_world))) 3
     = Some (XPsmFw_IntrHandler_p, 0).
Proof.
  assert (Hn : 0 <= 3 < 32) by lia.
  split; [exact Hn|].
  apply (@restore_undoes_override board 3 (Stl_p 0x2000) (Stl_p 0x3000)
           board_world board_driver_laws Hn).
Defined.

Lemma exception_init_needs_last_below_u16_max_witness :
  65535 <= 65535
  /\ exists w',
       @XPsmfw_ExceptionInit (board_variant 65535 0) 1000
         (variant_world 65535 0) = Running w'.
Proof.
  assert (H : 65535 <= @XIL_EXCEPTION_ID_LAST (board_variant 65535 0))
    by (simpl; lia).
  split; [exact H|].
  apply (@exception_init_needs_last_below_u16_max (board_variant 65535 0) H
           1000%nat (variant_world 65535 0)).
Defined.

Lemma exception_init_touches_only_its_range_witness :
  exists w',
    @XPsmfw_ExceptionInit board 9 board_world = Returned tt w'
    /\ trace w' = [] /\ ExcTable w' !! 16 = None.
Proof.
  assert (H1 : 0 <= 0 <= 7) by lia.
  assert (H2 : 7 < 65535) by lia.
  assert (H4 : (Z.to_nat (7 + 1 - 0) < 9)%nat) by (vm_compute; lia).
  destruct (@exception_init_touches_only_its_range board H1 H2 board_world
              9%nat H4) as (w' & Hret & _ & _ & Htr & Hout).
  exists w'. split; [exact Hret|]. split; [exact Htr|].
  rewrite (Hout 16); [reflexivity | simpl; lia].
Defined.

End IoModuleExtras.

(** *** What a dispatch call does to the world *)

Module IoModuleServe.

Import IoModule IoModuleProofs IoModuleExtras.
Local Open Scope Z_scope.

Section Serve.

Context {P : Platform}.

Lemma local_extern (f : extern_fn) (args : list Z) : local (extern f args).
Proof.
  intros w. unfold extern, exec. simpl.
  destruct (extern_call f args (hw w)); reflexivity.
Qed.

Lemma local_if {A} (b : bool) (m1 m2 : M A) :
  local m1 -> local m2 -> local (if b then m1 else m2).
Proof. by destruct b. Qed.

Ltac local_steps :=
  repeat first
    [ apply local_ret | apply local_Read32 | apply local_Write32
    | apply local_Printf | apply local_extern
    | apply local_if | (apply local_bind; [|intros ?]) ].

(** The code behind every pointer of the table is local. *)
Lemma local_irq_fn_code (h : irq_fn) : local (irq_fn_code h).
Proof.
  destruct h; cbn [irq_fn_code];
    unfold XPsmFw_InterruptIpiHandler, XPsmfw_InterruptPwrUpHandler,
      XPsmfw_InterruptPwrDwnHandler, XPsmfw_InterruptWakeupHandler,
      XPsmfw_InterruptPwrCtlHandler, XPsmfw_InterruptGicP2Handler;
    cbv zeta; local_steps.
Qed.

(** One table entry served from world [w], ending in [w']: an entry
    that is not pending leaves the world alone; a pending entry with a
    NULL pointer gets the acknowledge write only; a pending entry with a
    handler has the handler's code run from [w], and [w'] is the world
    that run produced (hardware, driver instance and vector table as the
    handler left them), the handler's events filed under one [EvHandler]
    event, with the write of the entry's mask to the acknowledge
    register done on top of it. *)
Definition served_entry (irq : Z) (e : HandlerTable) (w w' : World)
  : Prop :=
  if entry_pending irq e then
    match Handler e with
    | Some h =>
        let wh := exec (irq_fn_code h) w in
        exists body,
          trace wh = trace w ++ body
          /\ w' = exec (XPsmFw_Write32 PSM_IOMODULE_IRQ_ACK (Mask e))
                    (set_trace (trace w ++ [EvHandler h body]) wh)
    | None => w' = exec (XPsmFw_Write32 PSM_IOMODULE_IRQ_ACK (Mask e)) w
    end
  else w' = w.

(** The entries of a table served one after the other, each from the
    world the one before it ended in. *)
Inductive served_table (irq : Z)
  : list HandlerTable -> World -> World -> Prop :=
| served_nil (w : World) : served_table irq [] w w
| served_cons (e : HandlerTable) (tbl : list HandlerTable)
    (w w1 w' : World) :
    served_entry irq e w w1 ->
    served_table irq tbl w1 w' ->
    served_table irq (e :: tbl) w w'.

Lemma call_Handler_runs_code (h : irq_fn) (w : World) :
  let wh := exec (irq_fn_code h) w in
  exists body,
    trace wh = trace w ++ body
    /\ exec (call_Handler h) w
       = set_trace (trace w ++ [EvHandler h body]) wh.
Proof.
  intros wh. exists (trace (exec (irq_fn_code h) (set_trace [] w))).
  unfold wh. rewrite (local_exec _ (local_irq_fn_code h) w).
  split; reflexivity.
Qed.

Lemma body_serves (irq : Z) (e : HandlerTable) (w : World) :
  served_entry irq e w (exec (IntrHandler_body irq e) w).
Proof.
  unfold served_entry, IntrHandler_body, entry_pending.
  destruct (Z.land irq (Mask e) =? Mask e); [|reflexivity].
  rewrite exec_bind. destruct (Handler e) as [h|]; [|reflexivity].
  destruct (call_Handler_runs_code h w) as (body & Hbody & Hcall).
  exists body. split; [exact Hbody|]. by rewrite Hcall.
Qed.

Lemma loop_serves (tbl : list HandlerTable) (irq : Z) (w : World) :
  served_table irq tbl w (exec (IntrHandler_loop tbl irq) w).
Proof.
  revert w. induction tbl as [|e tbl IH]; intros w; simpl.
  - constructor.
  - rewrite exec_bind.
    apply served_cons with (w1 := exec (IntrHandler_body irq e) w);
      [apply body_serves | apply IH].
Qed.

(** The world a dispatch call starts to serve the table from: the one
    reached by its debug print and its read of the pending register. *)
Definition after_pending_read (IntrNumber : Z) (w : World) : World :=
  exec (XPsmFw_Read32 PSM_IOMODULE_IRQ_PENDING)
    (exec (XPsmFw_Printf DEBUG_DETAILED "Interrupt number = 0x%x\r\n"%string
             [ArgX IntrNumber]) w).

(** C1. In one dispatch call with pending mask [irq], the entries of
    the top-level table are served one after the other from the world
    reached by the read of the pending register.  An entry whose mask is
    contained in [irq] has its handler's code run when the pointer is
    not NULL, the world going on from what that run left, and then gets
    exactly one write of its mask to the acknowledge register; handlers
    return nothing, so their outcome cannot influence the write.  Any
    other entry leaves the world alone.  In the trace each entry has its
    own segment, in table order; the values written to the acknowledge
    register are the masks of the pending entries, once each, and the
    handlers called are those of the pending entries. *)
Theorem dispatch_invokes_and_acks_pending (IntrNumber : Z) (w : World) :
  let irq := pending_read IntrNumber w in
  served_table irq g_TopLevelInterruptTable
    (after_pending_read IntrNumber w)
    (exec (XPsmFw_IntrHandler IntrNumber) w)
  /\ exists segs,
       Forall2 (entry_events irq) g_TopLevelInterruptTable segs
       /\ trace (exec (XPsmFw_IntrHandler IntrNumber) w)
          = trace w
            ++ [EvPrintf DEBUG_DETAILED "Interrupt number = 0x%x\r\n"%string
                  [ArgX IntrNumber];
                EvRead32 PSM_IOMODULE_IRQ_PENDING irq]
            ++ concat segs
       /\ ack_writes (concat segs)
          = pending_masks irq g_TopLevelInterruptTable
       /\ handler_calls (concat segs)
          = pending_handlers irq g_TopLevelInterruptTable.
Proof.
  intros irq. split.
  - rewrite IntrHandler_unfold. apply loop_serves.
  - apply dispatch_trace_segments.
Qed.

(** C6. Within one dispatch call the entries are served in table
    order.  Wherever the table is cut as [hi ++ e :: lo]: the entries of
    [hi] are served first, each handler run to its return and each
    acknowledge written, ending in a world [w_hi]; entry [e] is
    inspected in that very world, so its handler runs on what the
    handlers of [hi] left; and the entries of [lo] are served only from
    the world [w_e] in which [e] is served in full.  A handler's own
    actions sit inside its single [EvHandler] event, so calls never
    interleave, and the trace is the segments of [hi], [e] and [lo] in
    that order. *)
Theorem dispatch_serves_in_table_order (IntrNumber : Z) (w : World)
  (hi : list HandlerTable) (e : HandlerTable) (lo : list HandlerTable) :
  g_TopLevelInterruptTable = hi ++ e :: lo ->
  let irq := pending_read IntrNumber w in
  let w_hi := exec (IntrHandler_loop hi irq)
                (after_pending_read IntrNumber w) in
  let w_e := exec (IntrHandler_body irq e) w_hi in
  served_table irq hi (after_pending_read IntrNumber w) w_hi
  /\ served_entry irq e w_hi w_e
  /\ served_table irq lo w_e (exec (XPsmFw_IntrHandler IntrNumber) w)
  /\ served_in_order IntrNumber w hi e lo.
Proof.
  intros Hcut irq w_hi w_e.
  pose proof (dispatch_trace_in_table_order IntrNumber w hi e lo Hcut)
    as Hord.
  split; [apply loop_serves|]. split; [apply body_serves|].
  split; [|exact Hord].
  destruct Hord as [Heq _]. rewrite Heq. apply loop_serves.
Qed.

(** The events one dispatch call adds to the trace. *)
Definition dispatch_events (IntrNumber : Z) (w : World) : list event :=
  drop (length (trace w)) (trace (exec (XPsmFw_IntrHandler IntrNumber) w)).

Lemma pending_handlers_mono (irq irq' : Z) (tbl : list HandlerTable) :
  Z.land irq irq' = irq ->
  sublist (pending_handlers irq tbl) (pending_handlers irq' tbl).
Proof.
  intros Hsub. unfold pending_handlers.
  induction tbl as [|e tbl IH]; simpl; [constructor|].
  destruct (entry_pending irq e) eqn:E.
  - rewrite (entry_pending_mono irq irq' e Hsub E). simpl.
    destruct (Handler e); [by apply sublist_skip | exact IH].
  - destruct (entry_pending irq' e); simpl; [|exact IH].
    destruct (Handler e); [by apply sublist_cons | exact IH].
Qed.

Lemma dispatch_events_acks (IntrNumber : Z) (w : World) :
  ack_writes (dispatch_events IntrNumber w)
  = pending_masks (pending_read IntrNumber w) g_TopLevelInterruptTable
  /\ handler_calls (dispatch_events IntrNumber w)
     = pending_handlers (pending_read IntrNumber w) g_TopLevelInterruptTable.
Proof.
  unfold dispatch_events. rewrite IntrHandler_unfold.
  match goal with |- context [exec (IntrHandler_loop _ ?irq) ?w0] =>
    destruct (loop_events g_TopLevelInterruptTable irq w0)
      as (segs & Hall & Htr) end.
  rewrite Htr, trace_Read32, trace_Printf, <- !app_assoc, drop_app_length.
  rewrite !ack_writes_app, !handler_calls_app. simpl.
  by apply segs_acks.
Qed.

(** X4. What the dispatcher serves grows with the pending mask: for
    two dispatch calls such that every bit of the pending value read by
    the first is set in the value read by the second, the masks the
    first call writes to the acknowledge register are, in order, among
    those the second writes, and the handlers the first calls are, in
    order, among those the second calls. *)
Theorem acknowledged_masks_grow_with_pending (n n' : Z) (w w' : World) :
  Z.land (pending_read n w) (pending_read n' w') = pending_read n w ->
  sublist (ack_writes (dispatch_events n w))
          (ack_writes (dispatch_events n' w'))
  /\ sublist (handler_calls (dispatch_events n w))
             (handler_calls (dispatch_events n' w')).
Proof.
  intros Hsub.
  destruct (dispatch_events_acks n w) as [-> ->].
  destruct (dispatch_events_acks n' w') as [-> ->].
  split; [by apply pending_masks_mono | by apply pending_handlers_mono].
Qed.

End Serve.

(** *** On the board *)

(** A world of the board with only the power-up request pending. *)
Definition board_power_up : @World board :=
  @mkWorld board (fun a => if a =? 0xFFC80034 then 0x20000 else 0)
    (fun _ => None) ∅ [].

Lemma dispatch_serves_in_table_order_witness :
  @g_TopLevelInterruptTable board
  = take 2 (@g_TopLevelInterruptTable board)
    ++ mkHandlerTable 18 0x40000 (Some XPsmfw_InterruptPwrDwnHandler_p)
    :: drop 3 (@g_TopLevelInterruptTable board)
  /\ @served_entry board (@pending_read board 17 board_world)
       (mkHandlerTable 18 0x40000 (Some XPsmfw_InterruptPwrDwnHandler_p))
       (exec (@IntrHandler_loop board (take 2 (@g_TopLevelInterruptTable board))
                (@pending_read board 17 board_world))
          (@after_pending_read board 17 board_world))
       (exec (@IntrHandler_body board (@pending_read board 17 board_world)
                (mkHandlerTable 18 0x40000
                   (Some XPsmfw_InterruptPwrDwnHandler_p)))
          (exec (@IntrHandler_loop board
                   (take 2 (@g_TopLevelInterruptTable board))
                   (@pending_read board 17 board_world))
             (@after_pending_read board 17 board_world))).
Proof.
  assert (H : @g_TopLevelInterruptTable board
    = take 2 (@g_TopLevelInterruptTable board)
      ++ mkHandlerTable 18 0x40000 (Some XPsmfw_InterruptPwrDwnHandler_p)
      :: drop 3 (@g_TopLevelInterruptTable board)) by reflexivity.
  split; [exact H|].
  apply (@dispatch_serves_in_table_order board 17 board_world _ _ _ H).
Defined.

Lemma acknowledged_masks_grow_with_pending_witness :
  Z.land (@pending_read board 17 board_power_up)
         (@pending_read board 18 board_world)
  = @pending_read board 17 board_power_up
  /\ @ack_writes board (@dispatch_events board 17 board_power_up) = [0x20000]
  /\ @ack_writes board (@dispatch_events board 18 board_world)
     = [0x20000; 0x40000]
  /\ sublist (@ack_writes board (@dispatch_events board 17 board_power_up))
             (@ack_writes board (@dispatch_events board 18 board_world)).
Proof.
  assert (H : Z.land (@pending_read board 17 board_power_up)
                     (@pending_read board 18 board_world)
              = @pending_read board 17 board_power_up) by reflexivity.
  split; [exact H|]. split; [reflexivity|]. split; [reflexivity|].
  apply (@acknowledged_masks_grow_with_pending board 17 18 board_power_up
           board_world H).
Defined.

End IoModuleServe.
